(** * The ReAct agent loop of [CustomReActAgent]

    A shallow embedding of
    [src/Llama_index_sandbox/custom_react_agent/ReActAgent.py]:
    the [chat] loop, the rewrite of the ["Action Input:"] block and
    [_process_actions], over an explicit model of the Python state they
    touch (chat memory, the store of response objects, the event and log
    streams).

    Python text is modelled by [string]; a character stands for the code
    point of the same number, so the texts covered are those of the Latin-1
    range. *)

From Stdlib Require Import Ascii String ZArith Lia DecimalString Sorted.
From stdpp Require Import base option list gmap strings.

Set Warnings "-register-all".
Local Open Scope string_scope.
Local Open Scope list_scope.

(** ** Python exceptions and results *)

(** The exception classes the modelled code can meet. All of them derive
    from [Exception], hence all are caught by [except Exception]. *)
Inductive PyExc :=
  | KeyError (key : string)
  | IndexError
  | TypeError
  | AttributeError
  | ValueError (msg : string)
  | JSONDecodeError
  | OtherException (msg : string).

Inductive Result (A : Type) :=
  | Ok (a : A)
  | Raise (e : PyExc).
Arguments Ok {A} a.
Arguments Raise {A} e.

(** ** Python text operations *)

(** [str.isspace] on one character, for code points below 256. *)
Definition isspace (c : ascii) : bool :=
  let n := N_of_ascii c in
  (((9 <=? n) && (n <=? 13)) || ((28 <=? n) && (n <=? 32))
   || (n =? 133) || (n =? 160))%N.

Fixpoint str_lstrip (s : string) : string :=
  match s with
  | EmptyString => EmptyString
  | String c s' => if isspace c then str_lstrip s' else s
  end.

Fixpoint str_rstrip (s : string) : string :=
  match s with
  | EmptyString => EmptyString
  | String c s' =>
      match str_rstrip s' with
      | EmptyString => if isspace c then EmptyString else String c EmptyString
      | r => String c r
      end
  end.

(** [s.strip()] *)
Definition str_strip (s : string) : string := str_rstrip (str_lstrip s).

(** [sub in s] for two texts. *)
Fixpoint str_contains (sub s : string) : bool :=
  String.prefix sub s
  || match s with
     | EmptyString => false
     | String _ s' => str_contains sub s'
     end.

(** [s.split(sep)] for a non-empty [sep]: the scan goes left to right; at a
    match the piece read so far is emitted and the rest of the separator is
    skipped. [skip] counts the characters of a matched separator still to
    pass over. *)
Fixpoint split_from (sep : string) (skip : nat) (cur s : string) : list string :=
  match s with
  | EmptyString => [cur]
  | String c s' =>
      match skip with
      | S k => split_from sep k cur s'
      | O =>
          if String.prefix sep s
          then cur :: split_from sep (String.length sep - 1) EmptyString s'
          else split_from sep 0 (cur +:+ String c EmptyString) s'
      end
  end.

Definition str_split (sep s : string) : list string := split_from sep 0 EmptyString s.

(** [s.replace(old, new)]: every non-overlapping occurrence of [old], from
    the left. *)
Fixpoint replace_from (old new : string) (skip : nat) (s : string) : string :=
  match s with
  | EmptyString => EmptyString
  | String c s' =>
      match skip with
      | S k => replace_from old new k s'
      | O =>
          if String.prefix old s
          then new +:+ replace_from old new (String.length old - 1) s'
          else String c (replace_from old new 0 s')
      end
  end.

(** With an empty [old], Python puts [new] before every character and at
    the end. *)
Fixpoint replace_empty (new s : string) : string :=
  match s with
  | EmptyString => new
  | String c s' => new +:+ String c (replace_empty new s')
  end.

Definition str_replace (old new s : string) : string :=
  match old with
  | EmptyString => replace_empty new s
  | _ => replace_from old new 0 s
  end.

(** [s[n:]] *)
Fixpoint str_drop (n : nat) (s : string) : string :=
  match n, s with
  | S n', String _ s' => str_drop n' s'
  | _, _ => s
  end.

(** [l[i]] for a non-negative index. *)
Definition list_getitem {A} (l : list A) (i : nat) : Result A :=
  match l !! i with
  | Some x => Ok x
  | None => Raise IndexError
  end.

(** [l[-1]] *)
Definition list_last_item {A} (l : list A) : Result A :=
  match last l with
  | Some x => Ok x
  | None => Raise IndexError
  end.

(** ** Python values: what [json.loads] returns and [raw] payloads hold *)

(** A dict keeps its keys in insertion order and its keys are unique; it is
    an association list here. A float is identified by its [repr], which is
    the text [json.dumps] writes for it. *)
Inductive PyValue :=
  | PyNone
  | PyBool (b : bool)
  | PyInt (z : Z)
  | PyFloat (repr : string)
  | PyStr (s : string)
  | PyList (l : list PyValue)
  | PyDict (d : list (string * PyValue)).

Fixpoint dict_get {V} (k : string) (d : list (string * V)) : option V :=
  match d with
  | [] => None
  | (k', v) :: d' => if String.eqb k' k then Some v else dict_get k d'
  end.

(** [d[k] = v]: the value is replaced in place when the key is there, and
    the pair is added at the end otherwise. *)
Fixpoint dict_set {V} (k : string) (v : V) (d : list (string * V)) : list (string * V) :=
  match d with
  | [] => [(k, v)]
  | (k', v') :: d' =>
      if String.eqb k' k then (k', v) :: d' else (k', v') :: dict_set k v d'
  end.

(** [x[k]] with a text key. *)
Definition py_getitem_key (x : PyValue) (k : string) : Result PyValue :=
  match x with
  | PyDict d =>
      match dict_get k d with
      | Some v => Ok v
      | None => Raise (KeyError k)
      end
  | _ => Raise TypeError
  end.

(** [x[0]]: the first element of a list, the first character of a text; a
    dict read from JSON has text keys only, so the key [0] is missing. *)
Definition py_getitem_0 (x : PyValue) : Result PyValue :=
  match x with
  | PyList l => list_getitem l 0
  | PyStr (String c _) => Ok (PyStr (String c EmptyString))
  | PyStr EmptyString => Raise IndexError
  | PyDict _ => Raise (KeyError "0")
  | _ => Raise TypeError
  end.

(** [x[k] = v] with a text key: only a dict supports it. *)
Definition py_setitem_key (x : PyValue) (k : string) (v : PyValue) : Result PyValue :=
  match x with
  | PyDict d => Ok (PyDict (dict_set k v d))
  | _ => Raise TypeError
  end.

(** [marker in x]: substring test on a text, element test on a list, key
    test on a dict; the other values are not containers. *)
Definition py_contains (marker : string) (x : PyValue) : Result bool :=
  match x with
  | PyStr s => Ok (str_contains marker s)
  | PyList l =>
      Ok (existsb (fun y => match y with PyStr t => String.eqb t marker | _ => false end) l)
  | PyDict d => Ok (bool_decide (is_Some (dict_get marker d)))
  | _ => Raise TypeError
  end.

(** ** The data model of the agent *)

Inductive MessageRole := SYSTEM | USER | ASSISTANT.

Record ChatMessage := mkChatMessage {
  role : MessageRole;
  content : option string
}.

(** The value of a [ChatResponse]: the parsed message and the raw payload
    of the provider. *)
Record ChatResponse := mkChatResponse {
  message : ChatMessage;
  raw : PyValue
}.

Inductive ReasoningStep :=
  | ActionReasoningStep (thought action : string) (action_input : list (string * PyValue))
  | ObservationReasoningStep (observation : string)
  | FinalAnswerStep (thought response : string).

Record AgentChatResponse := mkAgentChatResponse {
  response : string
}.

(** [reasoning_step.action] and [reasoning_step.action_input]: only an
    action step has these attributes. *)
Definition step_action (st : ReasoningStep) : Result string :=
  match st with
  | ActionReasoningStep _ a _ => Ok a
  | _ => Raise AttributeError
  end.

Definition step_action_input (st : ReasoningStep) : Result (list (string * PyValue)) :=
  match st with
  | ActionReasoningStep _ _ i => Ok i
  | _ => Raise AttributeError
  end.

(** *** The store of response objects

    A [ChatResponse] object refers to its message object and to its raw
    payload; each is a cell of the store. The payload tree (the dicts and
    the list under [raw]) is one cell. Cells are never freed: the store is
    a list and a reference is an index in it. *)
Abbreviation loc := nat.

Inductive PyObject :=
  | ChatResponseObj (message_ref raw_ref : loc)
  | ChatMessageObj (m : ChatMessage)
  | RawObj (v : PyValue).

Abbreviation Heap := (list PyObject).

(** The value an object reference stands for. *)
Definition deref (h : Heap) (l : loc) : option ChatResponse :=
  match h !! l with
  | Some (ChatResponseObj lm lr) =>
      match h !! lm, h !! lr with
      | Some (ChatMessageObj m), Some (RawObj v) => Some (mkChatResponse m v)
      | _, _ => None
      end
  | _ => None
  end.

(** A new response object with value [v]: three fresh cells. *)
Definition alloc_response (h : Heap) (v : ChatResponse) : loc * Heap :=
  let lm := List.length h in
  (lm + 2, h ++ [ChatMessageObj (message v); RawObj (raw v); ChatResponseObj lm (lm + 1)]).

(** [raw['choices'][0]['message']['content']] *)
Definition raw_get_content (r : PyValue) : Result PyValue :=
  match py_getitem_key r "choices" with
  | Raise e => Raise e
  | Ok cs =>
      match py_getitem_0 cs with
      | Raise e => Raise e
      | Ok c =>
          match py_getitem_key c "message" with
          | Raise e => Raise e
          | Ok m => py_getitem_key m "content"
          end
      end
  end.

(** [raw['choices'][0]['message']['content'] = v]: the three reads, then
    the item assignment on the innermost object; the objects on the path
    are updated in place, which on the payload tree is a rebuild along the
    path. *)
Definition raw_set_content (r v : PyValue) : Result PyValue :=
  match r with
  | PyDict top =>
      match dict_get "choices" top with
      | Some (PyList (c :: cs)) =>
          match py_getitem_key c "message" with
          | Raise e => Raise e
          | Ok m =>
              match py_setitem_key m "content" v with
              | Raise e => Raise e
              | Ok m' =>
                  match py_setitem_key c "message" m' with
                  | Raise e => Raise e
                  | Ok c' => Ok (PyDict (dict_set "choices" (PyList (c' :: cs)) top))
                  end
              end
          end
      | Some cs =>
          match py_getitem_0 cs with
          | Raise e => Raise e
          | Ok _ => Raise TypeError
          end
      | None => Raise (KeyError "choices")
      end
  | _ => Raise TypeError
  end.

(** ** The prompt constants *)

(** Modelled from the spec: [QUERY_ENGINE_PROMPT_FORMATTER] and
    [QUERY_ENGINE_TOOL_ROUTER] are defined in [prompts.py], which is not
    under src/. The spec describes the first as a fixed template applied to
    the question, so it is a format text whose only field is [{question}]:
    a sequence of literal pieces and places for the question. The second is
    a fixed text. Both are parameters below. *)
Inductive Segment :=
  | Lit (s : string)
  | Question.

(** [template.format(question=q)] *)
Fixpoint format_template (template : list Segment) (q : string) : string :=
  match template with
  | [] => EmptyString
  | Lit s :: t => s +:+ format_template t q
  | Question :: t => q +:+ format_template t q
  end.

(** The module-level names the file imports: the two functions of [json]
    and the prompt constants. [json.loads] returns a value or raises;
    [json.dumps] is total on the values of [PyValue]. *)
Record Globals := mkGlobals {
  json_loads : string -> Result PyValue;
  json_dumps : PyValue -> string;
  QUERY_ENGINE_PROMPT_FORMATTER : list Segment;
  QUERY_ENGINE_TOOL_ROUTER : string
}.

Section Agent.

(** The state of the external collaborators: the language-model backend and
    the tools. *)
Context {X : Type}.

(** *** Effects and the state they act on *)

(** What the code does to its collaborators, in order: the operations on
    chat memory, the calls of the backend, the two events around the call
    of a tool and the errors logged. [LlmReturned] is kept for the proofs:
    it records the object a call of the backend returned, and its value. *)
Inductive Effect :=
  | MemorySet (history : list ChatMessage)
  | MemoryPut (m : ChatMessage)
  | MemoryGet
  | LlmChat (input_chat : list ChatMessage)
  | LlmReturned (l : loc) (v : ChatResponse)
  | EventStart (function_call : list (string * PyValue)) (tool_metadata : string)
  | EventEnd (function_output : string)
  | LoggingError (e : PyExc).

Record World := mkWorld {
  memory : list ChatMessage;
  heap : Heap;
  env : X;
  effects : list Effect
}.

(** A computation runs on the state and returns or raises; the state
    reached is kept in both cases. *)
Definition M (A : Type) : Type := World -> Result A * World.

Definition ret {A} (a : A) : M A := fun w => (Ok a, w).

Definition bind {A B} (m : M A) (k : A -> M B) : M B :=
  fun w =>
    match m w with
    | (Ok a, w') => k a w'
    | (Raise e, w') => (Raise e, w')
    end.

Definition lift {A} (r : Result A) : M A := fun w => (r, w).

(** [try: body except Exception as e: handler(e)] *)
Definition try_except {A} (body : M A) (handler : PyExc -> M A) : M A :=
  fun w =>
    match body w with
    | (Ok a, w') => (Ok a, w')
    | (Raise e, w') => handler e w'
    end.

Notation "'let*' x ':=' m 'in' k" := (bind m (fun x => k))
  (at level 10, x pattern, m at level 100, k at level 200).
Notation "m ';;' k" := (bind m (fun _ => k))
  (at level 100, k at level 200, right associativity).

Definition emit (e : Effect) : M unit :=
  fun w => (Ok tt, mkWorld (memory w) (heap w) (env w) (effects w ++ [e])).

(** [self._memory.set], [put] and [get] *)
Definition memory_set (history : list ChatMessage) : M unit :=
  emit (MemorySet history) ;;
  fun w => (Ok tt, mkWorld history (heap w) (env w) (effects w)).

Definition memory_put (m : ChatMessage) : M unit :=
  emit (MemoryPut m) ;;
  fun w => (Ok tt, mkWorld (memory w ++ [m]) (heap w) (env w) (effects w)).

Definition memory_get : M (list ChatMessage) :=
  emit MemoryGet ;;
  fun w => (Ok (memory w), w).

(** Store operations. *)
Definition new_response (v : ChatResponse) : M loc :=
  fun w =>
    let '(l, h) := alloc_response (heap w) v in
    (Ok l, mkWorld (memory w) h (env w) (effects w)).

(** Reading through a reference that is no response object is an attribute
    error. *)
Definition read_response (l : loc) : M ChatResponse :=
  fun w =>
    match deref (heap w) l with
    | Some v => (Ok v, w)
    | None => (Raise AttributeError, w)
    end.

(** [copy.deepcopy(chat_response)]: a new object with its own message and
    payload, equal in value. *)
Definition deepcopy (l : loc) : M loc :=
  let* v := read_response l in new_response v.

(** [obj.raw['choices'][0]['message']['content'] = v] *)
Definition write_raw_content (l : loc) (v : PyValue) : M unit :=
  fun w =>
    match heap w !! l with
    | Some (ChatResponseObj lm lr) =>
        match heap w !! lr with
        | Some (RawObj r) =>
            match raw_set_content r v with
            | Ok r' => (Ok tt, mkWorld (memory w) (<[lr := RawObj r']> (heap w)) (env w) (effects w))
            | Raise e => (Raise e, w)
            end
        | _ => (Raise AttributeError, w)
        end
    | _ => (Raise AttributeError, w)
    end.

(** [obj.message.content = s] *)
Definition write_message_content (l : loc) (s : string) : M unit :=
  fun w =>
    match heap w !! l with
    | Some (ChatResponseObj lm lr) =>
        match heap w !! lm with
        | Some (ChatMessageObj m) =>
            (Ok tt, mkWorld (memory w)
                      (<[lm := ChatMessageObj (mkChatMessage (role m) (Some s))]> (heap w))
                      (env w) (effects w))
        | _ => (Raise AttributeError, w)
        end
    | _ => (Raise AttributeError, w)
    end.

(** *** The agent object *)

(** A tool: its metadata and [call], which gets the keyword arguments and
    returns the text [str(tool_output)] or raises. *)
Record Tool := mkTool {
  metadata : string;
  call : list (string * PyValue) -> X -> Result string * X
}.

(** The attributes and the inherited methods of [self] that [chat] and
    [_process_actions] use. [_memory] is in the state; the callback manager
    is the effect stream. The methods [_extract_reasoning_step] and
    [_get_response] are inherited from the library class and are taken as
    they are called: each returns or raises. *)
Record ReActAgent := mkReActAgent {
  _llm : list ChatMessage -> X -> Result ChatResponse * X;
  _react_chat_formatter : list ChatMessage -> list ReasoningStep -> list ChatMessage;
  _tools_dict : gmap string Tool;
  _max_iterations : nat;
  _extract_reasoning_step : ChatResponse -> Result (string * list ReasoningStep * bool);
  _get_response : list ReasoningStep -> Result AgentChatResponse
}.

Variable G : Globals.
Variable self : ReActAgent.

(** [self._llm.chat(input_chat)]: the backend answers with a new response
    object, or raises. *)
Definition llm_chat (input_chat : list ChatMessage) : M loc :=
  emit (LlmChat input_chat) ;;
  let* v := (fun w =>
               let '(r, x) := _llm self input_chat (env w) in
               (r, mkWorld (memory w) (heap w) x (effects w))) in
  let* l := new_response v in
  emit (LlmReturned l v) ;;
  ret l.

(** [self._tools_dict[name]] *)
Definition tools_getitem (name : string) : Result Tool :=
  match _tools_dict self !! name with
  | Some t => Ok t
  | None => Raise (KeyError name)
  end.

(** [tool.call] with [action_input] unpacked as keyword arguments. *)
Definition tool_call (tool : Tool) (action_input : list (string * PyValue)) : M string :=
  fun w =>
    let '(r, x) := call tool action_input (env w) in
    (r, mkWorld (memory w) (heap w) x (effects w)).

(** *** [chat], lines 48 to 71: the user question is forced into the action input *)

(** [response_content.split('Action Input:')[1].strip()] *)
Definition action_input_part (response_content : string) : Result string :=
  match list_getitem (str_split "Action Input:" response_content) 1 with
  | Ok part => Ok (str_strip part)
  | Raise e => Raise e
  end.

(** The body of the [try] block: parse the part, set its ["input"], put the
    new text in place of the old part and store the new content in both
    fields of the copy. *)
Definition modify_action_input (message : string) (chat_response_copy : loc)
    (response_content part : string) : M unit :=
  let* action_input_json := lift (json_loads G part) in
  let augmented_message := format_template (QUERY_ENGINE_PROMPT_FORMATTER G) message in
  let* action_input_json := lift (py_setitem_key action_input_json "input" (PyStr augmented_message)) in
  let response_content := str_replace part (json_dumps G action_input_json) response_content in
  write_raw_content chat_response_copy (PyStr response_content) ;;
  write_message_content chat_response_copy response_content.

Definition enforce_question (message : string) (chat_response_copy : loc) : M unit :=
  let* copy := read_response chat_response_copy in
  let* response_content := lift (raw_get_content (raw copy)) in
  let* has_marker := lift (py_contains "Action Input:" response_content) in
  if has_marker : bool then
    match response_content with
    | PyStr text =>
        let* part := lift (action_input_part text) in
        try_except
          (modify_action_input message chat_response_copy text part)
          (fun e => emit (LoggingError e))
    | _ => lift (Raise AttributeError)
    end
  else ret tt.

(** *** [_process_actions] *)

(** The [cast] is the identity at run time: [reasoning_step] is the last
    step whatever its class, and reading [.action] raises when it has none.
    The event context passes an exception of its body on; what it emits
    then is the library's and is left out, as is the console output under
    [_verbose]. *)
Definition _process_actions (output : loc) : M (list ReasoningStep * bool) :=
  let* out := read_response output in
  let* (_, current_reasoning, is_done) := lift (_extract_reasoning_step self out) in
  if is_done : bool then ret (current_reasoning, true)
  else
    let* reasoning_step := lift (list_last_item current_reasoning) in
    let* action := lift (step_action reasoning_step) in
    let* tool := lift (tools_getitem action) in
    let* action_input := lift (step_action_input reasoning_step) in
    emit (EventStart action_input (metadata tool)) ;;
    let* tool_output := tool_call tool action_input in
    emit (EventEnd tool_output) ;;
    let observation_step := ObservationReasoningStep tool_output in
    ret (current_reasoning ++ [observation_step], false).

(** *** [chat] *)

(** Lines 45 to 71: the deep copy of the response and the rewrite on it;
    the result is the copy. *)
Definition copy_and_enforce (message : string) (chat_response : loc) : M loc :=
  let* chat_response_copy := deepcopy chat_response in
  enforce_question message chat_response_copy ;;
  ret chat_response_copy.

(** Lines 36 to 71 of one round: the prompt, the call of the backend, the
    copy and the rewrite; the result is the copy handed to
    [_process_actions]. *)
Definition prepare_output (message : string) (current_reasoning : list ReasoningStep) : M loc :=
  let* chat_history := memory_get in
  let input_chat := _react_chat_formatter self chat_history current_reasoning in
  let* chat_response := llm_chat input_chat in
  copy_and_enforce message chat_response.

(** One round of the loop, lines 36 to 75. *)
Definition chat_round (message : string) (current_reasoning : list ReasoningStep)
    : M (list ReasoningStep * bool) :=
  let* chat_response_copy := prepare_output message current_reasoning in
  let* (reasoning_steps, is_done) := _process_actions chat_response_copy in
  ret (current_reasoning ++ reasoning_steps, is_done).

(** [for _ in range(n)] with its [break]; the result is the trace when the
    loop is left. *)
Fixpoint chat_loop (message : string) (n : nat) (current_reasoning : list ReasoningStep)
    : M (list ReasoningStep) :=
  match n with
  | O => ret current_reasoning
  | S n' =>
      let* (current_reasoning, is_done) := chat_round message current_reasoning in
      if is_done : bool then ret current_reasoning
      else chat_loop message n' current_reasoning
  end.

(** Lines 24 to 30: the history, when given, replaces the memory, and the
    user message with the router text is put. *)
Definition chat_begin (message : string) (chat_history : option (list ChatMessage)) : M unit :=
  match chat_history with
  | Some history => memory_set history
  | None => ret tt
  end ;;
  let message_with_tool_description := message +:+ String "010" (QUERY_ENGINE_TOOL_ROUTER G) in
  memory_put (mkChatMessage USER (Some message_with_tool_description)).

(** [chat]. The [trace_method] decorator opens a trace of the callback
    manager around the call and is left out. [_max_iterations] is a count,
    a natural number. *)
Definition chat (message : string) (chat_history : option (list ChatMessage))
    : M AgentChatResponse :=
  chat_begin message chat_history ;;
  let* current_reasoning := chat_loop message (_max_iterations self) [] in
  let* agent_response := lift (_get_response self current_reasoning) in
  memory_put (mkChatMessage ASSISTANT (Some (response agent_response))) ;;
  ret agent_response.

(** The loop with [n] rounds left, trace [cur] and state [w] gets, after
    some rounds that did not end the turn, to [n'], [cur'] and [w']. *)
Inductive loop_reaches (message : string)
    : nat -> list ReasoningStep -> World -> nat -> list ReasoningStep -> World -> Prop :=
  | reaches_here n cur w : loop_reaches message n cur w n cur w
  | reaches_round n cur w cur1 w1 n' cur' w' :
      chat_round message cur w = (Ok (cur1, false), w1) ->
      loop_reaches message n cur1 w1 n' cur' w' ->
      loop_reaches message (S n) cur w n' cur' w'.

End Agent.

Arguments loop_reaches {X} G self message n cur w n' cur' w'.
Arguments World : clear implicits.
Arguments M : clear implicits.
Arguments Tool : clear implicits.
Arguments ReActAgent : clear implicits.

(** ** What a run did, read from its effects, and the shape of traces *)

(** The messages put into chat memory, in order. *)
Fixpoint puts (es : list Effect) : list ChatMessage :=
  match es with
  | [] => []
  | MemoryPut m :: es' => m :: puts es'
  | _ :: es' => puts es'
  end.

(** The number of calls of the language-model backend. *)
Fixpoint llm_calls (es : list Effect) : nat :=
  match es with
  | [] => 0
  | LlmChat _ :: es' => S (llm_calls es')
  | _ :: es' => llm_calls es'
  end.

(** An effect that is neither a put into memory nor a call of the
    backend. *)
Definition internal (e : Effect) : bool :=
  match e with
  | MemoryPut _ | LlmChat _ => false
  | _ => true
  end.

Definition is_final (st : ReasoningStep) : bool :=
  match st with FinalAnswerStep _ _ => true | _ => false end.

(** Modelled from the spec: [_extract_reasoning_step] is inherited from the
    library class and is not under src/. Its contract, after section 4.3: a
    completion gives one step, and a step that ends the turn is a final
    answer. *)
Definition parser_contract {X} (self : ReActAgent X) : Prop :=
  forall output text steps (is_done : bool),
    _extract_reasoning_step self output = Ok (text, steps, is_done) ->
    exists st, steps = [st] /\ (is_done = true -> is_final st = true).

(** A computation that adds effects only, each of them satisfying [P]. *)
Definition adds_only {X A} (P : Effect -> bool) (m : M X A) : Prop :=
  forall w, exists d, effects (m w).2 = effects w ++ d /\ forallb P d = true.

(** A computation that adds effects only, among them [c] calls of the
    backend and no put into memory. *)
Definition calls_exactly {X A} (c : nat) (m : M X A) : Prop :=
  forall w, exists d, effects (m w).2 = effects w ++ d /\ llm_calls d = c /\ puts d = [].

(** The two messages [chat] puts into memory. *)
Definition user_message (G : Globals) (message : string) : ChatMessage :=
  mkChatMessage USER (Some (message +:+ String "010" (QUERY_ENGINE_TOOL_ROUTER G))).

Definition assistant_message (r : AgentChatResponse) : ChatMessage :=
  mkChatMessage ASSISTANT (Some (response r)).

(** The state when the loop starts: after lines 24 to 30. *)
Definition chat_start {X} (G : Globals) (message : string)
    (history : option (list ChatMessage)) (w : World X) : World X :=
  mkWorld (match history with Some h => h | None => memory w end ++ [user_message G message])
    (heap w) (env w)
    (effects w ++ match history with Some h => [MemorySet h] | None => [] end
               ++ [MemoryPut (user_message G message)]).

(** The state when [chat] returns [r] from the state [w] the loop ended in. *)
Definition chat_end {X} (r : AgentChatResponse) (w : World X) : World X :=
  mkWorld (memory w ++ [assistant_message r]) (heap w) (env w)
    (effects w ++ [MemoryPut (assistant_message r)]).

(** A trace made of actions, each followed by its observation. *)
Inductive action_observation_pairs : list ReasoningStep -> Prop :=
  | pairs_nil : action_observation_pairs []
  | pairs_snoc l thought action action_input observation :
      action_observation_pairs l ->
      action_observation_pairs
        (l ++ [ActionReasoningStep thought action action_input;
               ObservationReasoningStep observation]).

(** An effect that is not an answer of the backend. *)
Definition no_answer (e : Effect) : bool :=
  match e with
  | LlmReturned _ _ => false
  | _ => true
  end.

(** ** Frames on the store *)

(** Every object of [h] is in [h'] with the same content. *)
Definition heap_extends (h h' : Heap) : Prop :=
  forall i o, h !! i = Some o -> h' !! i = Some o.

(** The response object at [c], when there is one, has its message and its
    payload outside [h0]. *)
Definition private_to (h0 h : Heap) (c : loc) : Prop :=
  forall lm lr, h !! c = Some (ChatResponseObj lm lr) ->
    List.length h0 <= lm /\ List.length h0 <= lr.

(** A computation that leaves the objects of [h0] as they are, and [c]
    private. *)
Definition frames {X A} (h0 : Heap) (c : loc) (m : M X A) : Prop :=
  forall w, heap_extends h0 (heap w) -> private_to h0 (heap w) c ->
    heap_extends h0 (heap (m w).2) /\ private_to h0 (heap (m w).2) c.

(** The objects the backend returned, with the values it returned. *)
Fixpoint returned (es : list Effect) : list (loc * ChatResponse) :=
  match es with
  | [] => []
  | LlmReturned l v :: es' => (l, v) :: returned es'
  | _ :: es' => returned es'
  end.

(** The record the rewrite finds in a completion: the part after the
    marker, when [json.loads] makes a dict of it. *)
Definition action_input_record (G : Globals) (text : string) : option (list (string * PyValue)) :=
  match action_input_part text with
  | Ok part =>
      match json_loads G part with
      | Ok (PyDict d) => Some d
      | _ => None
      end
  | Raise _ => None
  end.

(** The content the rewrite stores when the part is the record [d]. *)
Definition rewritten_content (G : Globals) (message text part : string)
    (d : list (string * PyValue)) : string :=
  str_replace part
    (json_dumps G
       (PyDict (dict_set "input"
                  (PyStr (format_template (QUERY_ENGINE_PROMPT_FORMATTER G) message)) d)))
    text.

(** The copy of the object at the end of the store [h]. *)
Definition copy_loc (h : Heap) : loc := List.length h + 2.

Definition copy_cells (v : ChatResponse) (h : Heap) : Heap :=
  h ++ [ChatMessageObj (message v); RawObj (raw v);
        ChatResponseObj (List.length h) (List.length h + 1)].

(** ** More readings of the effects and of the trace *)


(** The outputs reported by the events that close a tool call, in order. *)
Fixpoint event_outputs (es : list Effect) : list string :=
  match es with
  | [] => []
  | EventEnd o :: es' => o :: event_outputs es'
  | _ :: es' => event_outputs es'
  end.

(** The texts of the observations of a trace, in order. *)
Fixpoint observations (trace : list ReasoningStep) : list string :=
  match trace with
  | [] => []
  | ObservationReasoningStep o :: t => o :: observations t
  | _ :: t => observations t
  end.

(** The number of steps of a trace that come from the parser: the actions
    and the final answers. *)
Fixpoint parsed_steps (trace : list ReasoningStep) : nat :=
  match trace with
  | [] => 0
  | ObservationReasoningStep _ :: t => parsed_steps t
  | _ :: t => S (parsed_steps t)
  end.

(** A computation that leaves chat memory as it is. *)
Definition keeps_memory {X A} (m : M X A) : Prop :=
  forall w, memory (m w).2 = memory w.

(** Lines 49 and 52: the content read in the raw payload, and the test for
    the marker in it. Both stand before the [try] block. *)
Definition marker_test (v : ChatResponse) : Result bool :=
  match raw_get_content (raw v) with
  | Ok response_content => py_contains "Action Input:" response_content
  | Raise e => Raise e
  end.

(** An effect of the first half of a round other than the read of the
    memory and the call of the backend: the answer of the backend and a
    logged error. *)
Definition quiet (e : Effect) : bool :=
  match e with
  | LlmReturned _ _ | LoggingError _ => true
  | _ => false
  end.

(** [sep] matches at no position of [text] before [n]. *)
Definition no_match_before (sep text : string) (n : nat) : Prop :=
  forall i, i < n -> String.prefix sep (str_drop i text) = false.


(** * [index.py] and [main.py]: the names of persisted indexes *)

(** How a call ends: it returns, it raises an exception, or it leaves the
    process. [exit(1)] raises [SystemExit], which is no [Exception] and so
    passes every [except Exception]. *)
Inductive Outcome (A : Type) :=
  | Returns (a : A)
  | Raises (e : PyExc)
  | Exits (code : Z).
Arguments Returns {A} a.
Arguments Raises {A} e.
Arguments Exits {A} code.

(** [main.py], line 35: [embedding_model_name.split('/')[-1]] *)
Definition model_name_in_main (embedding_model_name : string) : Result string :=
  list_last_item (str_split "/" embedding_model_name).

(** [persist_index], lines 64 and 65: the same, under its test for a
    slash. *)
Definition model_name_in_persist (embedding_model_name : string) : Result string :=
  if str_contains "/" embedding_model_name
  then list_last_item (str_split "/" embedding_model_name)
  else Ok embedding_model_name.

(** [datetime.now()], to the minute. *)
Record DateTime := mkDateTime {
  year : nat;
  month : nat;
  day : nat;
  hour : nat;
  minute : nat
}.

Definition valid_date (t : DateTime) : Prop :=
  1000 <= year t <= 9999 /\ 1 <= month t <= 12 /\ 1 <= day t <= 31
  /\ hour t < 24 /\ minute t < 60.

(** [t1] is an earlier minute than [t2]. *)
Definition date_lt (t1 t2 : DateTime) : Prop :=
  year t1 < year t2
  \/ (year t1 = year t2
      /\ (month t1 < month t2
          \/ (month t1 = month t2
              /\ (day t1 < day t2
                  \/ (day t1 = day t2
                      /\ (hour t1 < hour t2
                          \/ (hour t1 = hour t2 /\ minute t1 < minute t2))))))).

Definition digit_char (n : nat) : ascii := ascii_of_nat (48 + n).

(** A number below 100 in two digits, as [%m], [%d], [%H] and [%M] write
    it. *)
Definition two_digits (n : nat) : string :=
  String (digit_char (n / 10)) (String (digit_char (n mod 10)) EmptyString).

(** [strftime("%Y-%m-%d-%H-%M")], for a year of four digits. *)
Definition strftime_minutes (t : DateTime) : string :=
  two_digits (year t / 100) +:+ two_digits (year t mod 100) +:+ "-"
  +:+ two_digits (month t) +:+ "-" +:+ two_digits (day t) +:+ "-"
  +:+ two_digits (hour t) +:+ "-" +:+ two_digits (minute t).

(** [persist_index], line 67: the name of the directory. The chunk size
    and the overlap are constants of [constants.py], which is not under
    src/; they come as the texts the f-string makes of them. *)
Definition persist_name (t : DateTime) (model_name chunk_size chunk_overlap : string) : string :=
  strftime_minutes t +:+ "_" +:+ model_name +:+ "_" +:+ chunk_size +:+ "_" +:+ chunk_overlap.

(** [sorted(names)]: texts are ordered by their code points; equal texts
    keep their order. *)
Fixpoint insert_sorted (x : string) (l : list string) : list string :=
  match l with
  | [] => [x]
  | y :: l' => if String.leb x y then x :: l else y :: insert_sorted x l'
  end.

Fixpoint py_sorted (l : list string) : list string :=
  match l with
  | [] => []
  | x :: l' => insert_sorted x (py_sorted l')
  end.

(** *** [load_index_from_disk] *)

Inductive LogRecord :=
  | LogInfo (msg : string)
  | LogError (e : PyExc).

(** What [load_index_from_disk] works with: the directory of the indexes
    and its listing, the loading of the index from the vector store (lines
    105 to 108 and again 118 to 121), the writing of the stub file, and the
    text of an exception. [S] is the state of the file system and of the
    vector store. *)
Record IndexEnv (S I : Type) := mkIndexEnv {
  index_dir : string;
  listdir : S -> Result (list string);
  load_from_vector_store : S -> Result I * S;
  write_stub : string -> S -> Result unit * S;
  exc_str : PyExc -> string
}.
Arguments index_dir {S I} _.
Arguments listdir {S I} _ _.
Arguments load_from_vector_store {S I} _ _.
Arguments write_stub {S I} _ _ _.
Arguments exc_str {S I} _ _.

(** Line 102: [f"{index_dir}{sorted(os.listdir(index_dir))[-1]}"] *)
Definition latest_persist_dir {S I} (E : IndexEnv S I) (s : S) : Result string :=
  match listdir E s with
  | Raise e => Raise e
  | Ok names =>
      match list_last_item (py_sorted names) with
      | Raise e => Raise e
      | Ok latest => Ok (index_dir E +:+ latest)
      end
  end.

(** The result is the outcome, the state reached and the records logged.
    A call that falls off the end of the function returns [None]. The
    [timeit] decorator is defined in [utils.py], which is not under src/;
    it is taken to pass the outcome of the call on. *)
Definition load_index_from_disk {S I} (E : IndexEnv S I) (s : S)
    : Outcome (option I) * S * list LogRecord :=
  match latest_persist_dir E s with
  | Raise e => (Raises e, s, [])
  | Ok persist_dir =>
      let log1 := [LogInfo ("LOADING INDEX " +:+ persist_dir +:+ " FROM DISK")] in
      match load_from_vector_store E s with
      | (Ok index, s1) => (Returns (Some index), s1, log1)
      | (Raise e, s1) =>
          let log2 := log1 ++ [LogError e] in
          if str_contains "No existing llama_index.vector_stores.simple" (exc_str E e)
          then
            match write_stub E (persist_dir +:+ "/vector_store.json") s1 with
            | (Raise e', s2) => (Raises e', s2, log2)
            | (Ok _, s2) =>
                match load_from_vector_store E s2 with
                | (Ok index, s3) => (Returns (Some index), s3, log2)
                | (Raise e2, s3) => (Exits 1, s3, log2 ++ [LogError e2])
                end
            end
          else (Returns None, s1, log2)
      end
  end.

(** * [embed.py]: the embedding of one node *)

(** [ZeroDivisionError] derives from [Exception]. *)
Definition ZeroDivisionError : PyExc := OtherException "ZeroDivisionError".

(** What a C [int] keeps of a number, as the counter made by
    [multiprocessing.Value('i', 0)] stores it: 32 bits in two's complement,
    without a check for overflow. *)
Definition c_int (z : Z) : Z := ((z + 2 ^ 31) mod 2 ^ 32 - 2 ^ 31)%Z.

(** The calls [generate_node_embedding] makes to the objects it works
    with, in their order. *)
Inductive EmbedCall :=
  | GetContent
  | Encode (encoding text : string)
  | TokenAdd (num_tokens : nat)
  | RateCheck
  | Sleep (seconds : nat)
  | ClearOldTokens
  | GetTextEmbedding (text : string).

(** The records the two functions log. *)
Inductive EmbedLog :=
  | TokensFailed (e : PyExc)
  | RateLimitWarning
  | Resuming
  | Progress (value total_nodes : Z)
  | EmbeddingFailed (e : PyExc).

(** The objects of the call: the node's [get_content(metadata_mode="all")],
    the model's [model_name] and [get_text_embedding], [tiktoken]'s table
    [MODEL_TO_ENCODING] and the length of the encoding of a text, the three
    methods of the module's [token_counter] (its class is in
    [token_counter.py], which is not under src/), [time.sleep], and
    [math.ceil(total_nodes * progress_percentage)], a product of floating
    point numbers. [St] is the state of these objects, [V] the type of an
    embedding. *)
Record EmbedEnv (St V : Type) := mkEmbedEnv {
  get_content : St -> Result string * St;
  model_name : string;
  MODEL_TO_ENCODING : gmap string string;
  encode_len : string -> string -> St -> Result nat * St;
  token_counter_add : nat -> St -> Result unit * St;
  is_rate_limit_exceeded : St -> Result bool * St;
  clear_old_tokens : St -> Result unit * St;
  time_sleep : nat -> St -> Result unit * St;
  get_text_embedding : string -> St -> Result V * St;
  ceil_share : Z -> Z
}.
Arguments get_content {St V} _ _.
Arguments model_name {St V} _.
Arguments MODEL_TO_ENCODING {St V} _.
Arguments encode_len {St V} _ _ _ _.
Arguments token_counter_add {St V} _ _ _.
Arguments is_rate_limit_exceeded {St V} _ _.
Arguments clear_old_tokens {St V} _ _.
Arguments time_sleep {St V} _ _ _.
Arguments get_text_embedding {St V} _ _ _.
Arguments ceil_share {St V} _ _.

(** The state a call works on: the objects, [node.embedding],
    [progress_counter.value], and the calls and log records so far. *)
Record EmbedWorld (St V : Type) := mkEmbedWorld {
  objects : St;
  node_embedding : option V;
  progress_value : Z;
  calls : list EmbedCall;
  records : list EmbedLog
}.
Arguments mkEmbedWorld {St V} _ _ _ _ _.
Arguments objects {St V} _.
Arguments node_embedding {St V} _.
Arguments progress_value {St V} _.
Arguments calls {St V} _.
Arguments records {St V} _.

Section Embed.

Context {St V : Type} (E : EmbedEnv St V).

(** A computation on the state that returns, raises or leaves the
    process. *)
Definition EM (A : Type) : Type := EmbedWorld St V -> Outcome A * EmbedWorld St V.

Definition returns {A} (a : A) : EM A := fun w => (Returns a, w).

Definition raises {A} (e : PyExc) : EM A := fun w => (Raises e, w).

(** [exit(code)] *)
Definition exits {A} (code : Z) : EM A := fun w => (Exits code, w).

Definition and_then {A B} (m : EM A) (k : A -> EM B) : EM B :=
  fun w =>
    match m w with
    | (Returns a, w') => k a w'
    | (Raises e, w') => (Raises e, w')
    | (Exits code, w') => (Exits code, w')
    end.

(** [try: body except Exception as e: handler(e)]. A [SystemExit] is not
    caught. *)
Definition try_except_exception {A} (body : EM A) (handler : PyExc -> EM A) : EM A :=
  fun w =>
    match body w with
    | (Returns a, w') => (Returns a, w')
    | (Raises e, w') => handler e w'
    | (Exits code, w') => (Exits code, w')
    end.

Notation "'let*' x ':=' m 'in' k" := (and_then m (fun x => k))
  (at level 10, x pattern, m at level 100, k at level 200).
Notation "m ';;' k" := (and_then m (fun _ => k))
  (at level 100, k at level 200, right associativity).

(** A call to one of the objects: it is recorded, and the state of the
    objects moves on whether the call returns or raises. *)
Definition call_object {A} (c : EmbedCall) (op : St -> Result A * St) : EM A :=
  fun w =>
    let '(r, s) := op (objects w) in
    let w' := mkEmbedWorld s (node_embedding w) (progress_value w) (calls w ++ [c]) (records w) in
    match r with
    | Ok a => (Returns a, w')
    | Raise e => (Raises e, w')
    end.

Definition logging (r : EmbedLog) : EM unit :=
  fun w =>
    (Returns tt,
     mkEmbedWorld (objects w) (node_embedding w) (progress_value w) (calls w) (records w ++ [r])).

(** [node.embedding = node_embedding] *)
Definition set_embedding (v : V) : EM unit :=
  fun w =>
    (Returns tt, mkEmbedWorld (objects w) (Some v) (progress_value w) (calls w) (records w)).

(** [progress_counter.value += 1], and the value read back *)
Definition increment_progress : EM Z :=
  fun w =>
    let value := c_int (progress_value w + 1) in
    (Returns value, mkEmbedWorld (objects w) (node_embedding w) value (calls w) (records w)).

(** [num_tokens_from_string], lines 24 to 31. *)
Definition num_tokens_from_string (string embedding_model_name : string) : EM nat :=
  try_except_exception
    (let* encoding :=
       match MODEL_TO_ENCODING E !! embedding_model_name with
       | Some encoding => returns encoding
       | None => raises (KeyError embedding_model_name)
       end in
     call_object (Encode encoding string) (encode_len E encoding string))
    (fun e => logging (TokensFailed e) ;; exits 1).

(** [generate_node_embedding], lines 34 to 59. The lock of the counter is
    held from the increment to the log record; a single call is modelled,
    so the lock does not appear. *)
Definition generate_node_embedding (total_nodes : Z) : EM unit :=
  try_except_exception
    (let* node_content := call_object GetContent (get_content E) in
     (if bool_decide (is_Some (MODEL_TO_ENCODING E !! model_name E))
      then
        let* num_tokens := num_tokens_from_string node_content (model_name E) in
        call_object (TokenAdd num_tokens) (token_counter_add E num_tokens) ;;
        let* exceeded := call_object RateCheck (is_rate_limit_exceeded E) in
        if exceeded
        then
          logging RateLimitWarning ;;
          call_object (Sleep 20) (time_sleep E 20) ;;
          logging Resuming ;;
          call_object ClearOldTokens (clear_old_tokens E)
        else returns tt
      else returns tt) ;;
     let* embedding := call_object (GetTextEmbedding node_content) (get_text_embedding E node_content) in
     set_embedding embedding ;;
     let* value := increment_progress in
     (if (total_nodes =? 0)%Z then raises ZeroDivisionError else returns tt) ;;
     let every := ceil_share E total_nodes in
     let* at_step :=
       if (every =? 0)%Z then raises ZeroDivisionError
       else returns (value mod every =? 0)%Z in
     if at_step || (value =? total_nodes)%Z
     then logging (Progress value total_nodes)
     else returns tt)
    (fun e => logging (EmbeddingFailed e)).

(** From [w], the computation [m] ends in an outcome and a state that
    satisfy [Q]. *)
Definition reaches {A} (m : EM A) (Q : Outcome A -> EmbedWorld St V -> Prop)
    (w : EmbedWorld St V) : Prop :=
  Q (m w).1 (m w).2.

End Embed.

(** ** A sample agent

    A concrete instance of every parameter, used to run the model: [json]
    on a fragment of JSON, a parser of the two shapes of completion, a
    scripted backend and two tools. *)

Module Sample.

Definition dquote : ascii := ascii_of_nat 34.
Definition backslash : ascii := ascii_of_nat 92.

(** Texts with double quotes are written with single quotes and converted. *)
Fixpoint dq (s : string) : string :=
  match s with
  | EmptyString => EmptyString
  | String c s' => String (if Ascii.eqb c "'" then dquote else c) (dq s')
  end.

(** *** [json.loads] and [json.dumps] on a fragment

    The fragment has objects, arrays, texts with the two-character escapes,
    integers, [true], [false] and [null]. A float, a [\u] escape and the
    constants [NaN] and [Infinity] are outside it: [loads] raises on them
    here, so the sample is used on texts of the fragment only. *)

Definition json_ws (c : ascii) : bool :=
  let n := N_of_ascii c in ((n =? 32) || (n =? 9) || (n =? 10) || (n =? 13))%N.

Fixpoint skip_ws (s : string) : string :=
  match s with
  | String c s' => if json_ws c then skip_ws s' else s
  | EmptyString => EmptyString
  end.

Definition is_digit (c : ascii) : bool :=
  let n := N_of_ascii c in ((48 <=? n) && (n <=? 57))%N.

Definition digit_value (c : ascii) : Z := Z.of_N (N_of_ascii c) - 48.

(** The characters of a text literal after its opening quote, up to the
    closing one. *)
Fixpoint scan_text (s : string) : option (string * string) :=
  match s with
  | EmptyString => None
  | String c s' =>
      if Ascii.eqb c dquote then Some (EmptyString, s')
      else if Ascii.eqb c backslash then
        match s' with
        | String e s'' =>
            let unescaped :=
              if Ascii.eqb e dquote then Some dquote
              else if Ascii.eqb e backslash then Some backslash
              else if Ascii.eqb e "/" then Some "/"%char
              else if Ascii.eqb e "b" then Some (ascii_of_nat 8)
              else if Ascii.eqb e "f" then Some (ascii_of_nat 12)
              else if Ascii.eqb e "n" then Some (ascii_of_nat 10)
              else if Ascii.eqb e "r" then Some (ascii_of_nat 13)
              else if Ascii.eqb e "t" then Some (ascii_of_nat 9)
              else None in
            match unescaped, scan_text s'' with
            | Some u, Some (t, rest) => Some (String u t, rest)
            | _, _ => None
            end
        | EmptyString => None
        end
      else if (N_of_ascii c <? 32)%N then None
      else
        match scan_text s' with
        | Some (t, rest) => Some (String c t, rest)
        | None => None
        end
  end.

Fixpoint scan_digits (acc : Z) (s : string) : Z * string :=
  match s with
  | String c s' => if is_digit c then scan_digits (10 * acc + digit_value c) s' else (acc, s)
  | EmptyString => (acc, s)
  end.

(** An integer literal: no leading zero, and no fraction or exponent after
    it (that would be a float). *)
Definition scan_int (s : string) : option (Z * string) :=
  match s with
  | String c s' =>
      if is_digit c then
        let '(n, rest) := scan_digits 0 s in
        let leading_zero :=
          Ascii.eqb c "0" && match s' with String d _ => is_digit d | EmptyString => false end in
        let float_tail :=
          match rest with
          | String d _ => Ascii.eqb d "." || Ascii.eqb d "e" || Ascii.eqb d "E"
          | EmptyString => false
          end in
        if leading_zero || float_tail then None else Some (n, rest)
      else None
  | EmptyString => None
  end.

Fixpoint parse_value (fuel : nat) (s : string) : option (PyValue * string) :=
  match fuel with
  | O => None
  | S fuel' =>
      match s with
      | EmptyString => None
      | String c s' =>
          if Ascii.eqb c "{" then
            match skip_ws s' with
            | String c' s'' =>
                if Ascii.eqb c' "}" then Some (PyDict [], s'')
                else parse_members fuel' [] (String c' s'')
            | EmptyString => None
            end
          else if Ascii.eqb c "[" then
            match skip_ws s' with
            | String c' s'' =>
                if Ascii.eqb c' "]" then Some (PyList [], s'')
                else parse_elements fuel' [] (String c' s'')
            | EmptyString => None
            end
          else if Ascii.eqb c dquote then
            match scan_text s' with
            | Some (t, rest) => Some (PyStr t, rest)
            | None => None
            end
          else if Ascii.eqb c "-" then
            match scan_int s' with
            | Some (n, rest) => Some (PyInt (- n), rest)
            | None => None
            end
          else if String.prefix "true" s then Some (PyBool true, str_drop 4 s)
          else if String.prefix "false" s then Some (PyBool false, str_drop 5 s)
          else if String.prefix "null" s then Some (PyNone, str_drop 4 s)
          else
            match scan_int s with
            | Some (n, rest) => Some (PyInt n, rest)
            | None => None
            end
      end
  end
with parse_elements (fuel : nat) (acc : list PyValue) (s : string) : option (PyValue * string) :=
  match fuel with
  | O => None
  | S fuel' =>
      match parse_value fuel' s with
      | Some (v, rest) =>
          match skip_ws rest with
          | String c rest' =>
              if Ascii.eqb c "," then parse_elements fuel' (acc ++ [v]) (skip_ws rest')
              else if Ascii.eqb c "]" then Some (PyList (acc ++ [v]), rest')
              else None
          | EmptyString => None
          end
      | None => None
      end
  end
with parse_members (fuel : nat) (acc : list (string * PyValue)) (s : string) : option (PyValue * string) :=
  match fuel with
  | O => None
  | S fuel' =>
      match s with
      | String q s' =>
          if Ascii.eqb q dquote then
            match scan_text s' with
            | Some (k, rest) =>
                match skip_ws rest with
                | String c rest' =>
                    if Ascii.eqb c ":" then
                      match parse_value fuel' (skip_ws rest') with
                      | Some (v, rest'') =>
                          match skip_ws rest'' with
                          | String c' r =>
                              if Ascii.eqb c' "," then parse_members fuel' (dict_set k v acc) (skip_ws r)
                              else if Ascii.eqb c' "}" then Some (PyDict (dict_set k v acc), r)
                              else None
                          | EmptyString => None
                          end
                      | None => None
                      end
                    else None
                | EmptyString => None
                end
            | None => None
            end
          else None
      | EmptyString => None
      end
  end.

(** [json.loads(s)]: one value, with blanks allowed around it and nothing
    else after it. *)
Definition loads (s : string) : Result PyValue :=
  match parse_value (S (String.length s)) (skip_ws s) with
  | Some (v, rest) =>
      match skip_ws rest with
      | EmptyString => Ok v
      | _ => Raise JSONDecodeError
      end
  | None => Raise JSONDecodeError
  end.

Definition hex_digit (n : N) : ascii :=
  if (n <? 10)%N then ascii_of_N (48 + n) else ascii_of_N (87 + n).

(** One character of a text as [json.dumps] writes it (with
    [ensure_ascii], its default). *)
Definition dumps_char (c : ascii) : string :=
  let n := N_of_ascii c in
  if Ascii.eqb c dquote then String backslash (String dquote EmptyString)
  else if Ascii.eqb c backslash then String backslash (String backslash EmptyString)
  else if (n =? 10)%N then String backslash "n"
  else if (n =? 13)%N then String backslash "r"
  else if (n =? 9)%N then String backslash "t"
  else if (n =? 8)%N then String backslash "b"
  else if (n =? 12)%N then String backslash "f"
  else if ((n <? 32) || (126 <? n))%N then
    String backslash ("u00" +:+ String (hex_digit (n / 16)) (String (hex_digit (n mod 16)) EmptyString))
  else String c EmptyString.

Fixpoint dumps_text_body (s : string) : string :=
  match s with
  | EmptyString => EmptyString
  | String c s' => dumps_char c +:+ dumps_text_body s'
  end.

Definition dumps_text (s : string) : string :=
  String dquote (dumps_text_body s +:+ String dquote EmptyString).

Definition dumps_int (z : Z) : string :=
  DecimalString.NilZero.string_of_int (Z.to_int z).

(** [json.dumps(v)] with the default separators. *)
Fixpoint dumps (v : PyValue) : string :=
  match v with
  | PyNone => "null"
  | PyBool true => "true"
  | PyBool false => "false"
  | PyInt z => dumps_int z
  | PyFloat r => r
  | PyStr s => dumps_text s
  | PyList l =>
      "[" +:+
      (fix items (l : list PyValue) : string :=
         match l with
         | [] => EmptyString
         | [x] => dumps x
         | x :: l' => dumps x +:+ ", " +:+ items l'
         end) l +:+ "]"
  | PyDict d =>
      "{" +:+
      (fix items (d : list (string * PyValue)) : string :=
         match d with
         | [] => EmptyString
         | [(k, x)] => dumps_text k +:+ ": " +:+ dumps x
         | (k, x) :: d' => dumps_text k +:+ ": " +:+ dumps x +:+ ", " +:+ items d'
         end) d +:+ "}"
  end.

(** *** The sample globals *)

Definition globals : Globals :=
  mkGlobals loads dumps [Lit "Answer in detail: "; Question] "Use the query tool.".

(** *** A parser of completions

    A completion with [Answer:] is a final answer; one with [Action:] and
    [Action Input:] is an action whose input is the JSON object after the
    second marker; anything else is refused. *)
Definition text_before (marker s : string) : string :=
  match str_split marker s with
  | p :: _ => str_strip p
  | [] => EmptyString
  end.

Definition text_after (marker s : string) : string :=
  match str_split marker s with
  | _ :: p :: _ => str_strip p
  | _ => EmptyString
  end.

Definition extract_reasoning_step (output : ChatResponse)
    : Result (string * list ReasoningStep * bool) :=
  match content (message output) with
  | None => Raise (ValueError "Got empty message.")
  | Some text =>
      if str_contains "Answer:" text then
        Ok (text, [FinalAnswerStep (text_before "Answer:" text) (text_after "Answer:" text)], true)
      else if str_contains "Action:" text && str_contains "Action Input:" text then
        match loads (text_after "Action Input:" text) with
        | Ok (PyDict d) =>
            Ok (text,
                [ActionReasoningStep (text_before "Action:" text)
                   (text_before "Action Input:" (text_after "Action:" text)) d],
                false)
        | _ => Raise (ValueError "Could not parse output")
        end
      else Raise (ValueError "Could not parse output")
  end.

(** The answer is the response of the last step when that is a final
    answer. *)
Definition get_response (current_reasoning : list ReasoningStep) : Result AgentChatResponse :=
  match last current_reasoning with
  | Some (FinalAnswerStep _ r) => Ok (mkAgentChatResponse r)
  | Some _ => Raise AttributeError
  | None => Raise (ValueError "No reasoning steps were taken.")
  end.

(** *** A scripted backend and two tools

    The state of the collaborators is the list of completions the backend
    has still to give; with none left the backend raises. *)
Definition response_of_text (text : string) : ChatResponse :=
  mkChatResponse (mkChatMessage ASSISTANT (Some text))
    (PyDict [("choices",
              PyList [PyDict [("message",
                               PyDict [("role", PyStr "assistant"); ("content", PyStr text)])]])]).

Definition scripted_llm (input_chat : list ChatMessage) (script : list string)
    : Result ChatResponse * list string :=
  match script with
  | text :: script' => (Ok (response_of_text text), script')
  | [] => (Raise (OtherException "backend unavailable"), [])
  end.

Definition step_message (st : ReasoningStep) : ChatMessage :=
  match st with
  | ActionReasoningStep t a _ => mkChatMessage ASSISTANT (Some (t +:+ " Action: " +:+ a))
  | ObservationReasoningStep o => mkChatMessage USER (Some ("Observation: " +:+ o))
  | FinalAnswerStep t r => mkChatMessage ASSISTANT (Some (t +:+ " Answer: " +:+ r))
  end.

Definition chat_formatter (chat_history : list ChatMessage) (current_reasoning : list ReasoningStep)
    : list ChatMessage :=
  mkChatMessage SYSTEM (Some "You can use the tools.") :: chat_history ++ map step_message current_reasoning.

(** [query_tool] answers every question with the same text; [broken_tool]
    raises. *)
Definition query_tool : Tool (list string) :=
  mkTool "query_tool" (fun _ script => (Ok "Paris is the capital of France.", script)).

Definition broken_tool : Tool (list string) :=
  mkTool "broken_tool" (fun _ script => (Raise (OtherException "index not loaded"), script)).

Definition agent (max_iterations : nat) : ReActAgent (list string) :=
  mkReActAgent scripted_llm chat_formatter
    (<["query_tool" := query_tool]> (<["broken_tool" := broken_tool]> ∅))
    max_iterations extract_reasoning_step get_response.

Definition world (script : list string) : World (list string) := mkWorld [] [] script [].

(** Completions: a call of each tool, a call of a tool that is not
    registered, and a final answer. *)
Definition to_query_tool : string :=
  dq "Thought: I need the tool. Action: query_tool Action Input: {'input': 'capital of France'}".

Definition to_broken_tool : string :=
  dq "Thought: I need the tool. Action: broken_tool Action Input: {'input': 'capital of France'}".

Definition to_unknown_tool : string :=
  dq "Thought: I search the web. Action: web_search Action Input: {'input': 'capital of France'}".

Definition final_answer : string := "Thought: I know. Answer: Paris".

(** Completions for the rewrite: an input that is no JSON, a record with no
    ["input"] key, and a record that the thought quotes as well. *)
Definition malformed_input : string :=
  "Thought: I need the tool. Action: query_tool Action Input: capital of France".

Definition input_without_key : string :=
  dq "Thought: I need the tool. Action: query_tool Action Input: {'query': 'capital of France'}".

Definition quoted_input : string :=
  dq "Thought: I send {'input': 'X'} to the tool. Action: query_tool Action Input: {'input': 'X'}".

(** A completion of neither shape, and one with the marker twice. *)
Definition shapeless : string := "I do not know what to do.".

Definition marker_twice : string :=
  "Thought: go. Action: query_tool Action Input: {} Action Input: ignored".

(** A backend whose responses have no raw payload. *)
Definition bare_llm (input_chat : list ChatMessage) (script : list string)
    : Result ChatResponse * list string :=
  match script with
  | text :: script' => (Ok (mkChatResponse (mkChatMessage ASSISTANT (Some text)) PyNone), script')
  | [] => (Raise (OtherException "backend unavailable"), [])
  end.

Definition bare_agent (max_iterations : nat) : ReActAgent (list string) :=
  mkReActAgent bare_llm chat_formatter
    (<["query_tool" := query_tool]> (<["broken_tool" := broken_tool]> ∅))
    max_iterations extract_reasoning_step get_response.

(** A state whose store holds one response of the backend, at [2]. *)
Definition world_with (text : string) : World (list string) :=
  mkWorld [] (copy_cells (response_of_text text) []) [] [].

(** *** A sample directory of indexes

    The state is the list of the files written. The loading fails until
    the stub file is there, with the text [message]. *)

Definition index_env (names : list string) (message : string)
    : IndexEnv (list string) string :=
  mkIndexEnv (list string) string
    "index/"
    (fun _ => Ok names)
    (fun files =>
       match files with
       | [] => (Raise (ValueError message), files)
       | _ :: _ => (Ok "quickstart", files)
       end)
    (fun path files => (Ok tt, files ++ [path]))
    (fun e => match e with ValueError msg => msg | _ => "" end).

Definition first_index : string := "2023-09-30-23-59_text-embedding-ada-002_700_10".

Definition second_index : string := "2023-10-01-00-00_bge-small-en_700_10".

(** *** A sample embedding model

    The state of the objects is the number of tokens counted. *)

Definition embed_env (name : string) : EmbedEnv N (list nat) :=
  mkEmbedEnv N (list nat)
    (fun s => (Ok "the text of the node", s))
    name
    {[ "text-embedding-ada-002" := "cl100k_base" ]}
    (fun _ text s => (Ok (String.length text), s))
    (fun num_tokens s => (Ok tt, (s + N.of_nat num_tokens)%N))
    (fun s => (Ok (900000 <? s)%N, s))
    (fun _ => (Ok tt, 0%N))
    (fun _ s => (Ok tt, s))
    (fun text s => (Ok [String.length text], s))
    (fun total_nodes => ((total_nodes + 19) / 20)%Z).

Definition embed_world (value : Z) : EmbedWorld N (list nat) :=
  mkEmbedWorld 0%N None value [] [].

End Sample.

(** * Properties *)

Section Properties.

Context {X : Type} (G : Globals) (self : ReActAgent X).

(** ** Effects of the operations *)

Lemma puts_app (d1 d2 : list Effect) : puts (d1 ++ d2) = puts d1 ++ puts d2.
Proof.
  induction d1 as [|e d1 IH]; [reflexivity|].
  destruct e; simpl; rewrite IH; reflexivity.
Qed.

Lemma llm_calls_app (d1 d2 : list Effect) : llm_calls (d1 ++ d2) = llm_calls d1 + llm_calls d2.
Proof.
  induction d1 as [|e d1 IH]; [reflexivity|].
  destruct e; simpl; rewrite IH; reflexivity.
Qed.

Lemma internal_puts (d : list Effect) : forallb internal d = true -> puts d = [].
Proof.
  induction d as [|e d IH]; [reflexivity|].
  destruct e; simpl; intros H; try discriminate; auto.
Qed.

Lemma internal_llm_calls (d : list Effect) : forallb internal d = true -> llm_calls d = 0.
Proof.
  induction d as [|e d IH]; [reflexivity|].
  destruct e; simpl; intros H; try discriminate; auto.
Qed.

Lemma adds_only_silent {A} P (m : M X A) :
  (forall w, effects (m w).2 = effects w) -> adds_only P m.
Proof.
  intros H w. exists []. rewrite H, app_nil_r. auto.
Qed.

Lemma adds_only_ret {A} P (a : A) : adds_only (X:=X) P (ret a).
Proof. apply adds_only_silent. reflexivity. Qed.

Lemma adds_only_lift {A} P (r : Result A) : adds_only (X:=X) P (lift r).
Proof. apply adds_only_silent. reflexivity. Qed.

Lemma adds_only_emit P e : P e = true -> adds_only (X:=X) P (emit e).
Proof.
  intros H w. exists [e]. simpl. rewrite H. auto.
Qed.

Lemma adds_only_bind {A B} P (m : M X A) (k : A -> M X B) :
  adds_only P m -> (forall a, adds_only P (k a)) -> adds_only P (bind m k).
Proof.
  intros Hm Hk w. unfold bind.
  destruct (Hm w) as (d1 & E1 & F1).
  destruct (m w) as [[a|e] w1]; simpl in *.
  - destruct (Hk a w1) as (d2 & E2 & F2).
    exists (d1 ++ d2). rewrite E2, E1, app_assoc, forallb_app, F1, F2. auto.
  - exists d1. auto.
Qed.

Lemma adds_only_try {A} P (m : M X A) (h : PyExc -> M X A) :
  adds_only P m -> (forall e, adds_only P (h e)) -> adds_only P (try_except m h).
Proof.
  intros Hm Hh w. unfold try_except.
  destruct (Hm w) as (d1 & E1 & F1).
  destruct (m w) as [[a|e] w1]; simpl in *.
  - exists d1. auto.
  - destruct (Hh e w1) as (d2 & E2 & F2).
    exists (d1 ++ d2). rewrite E2, E1, app_assoc, forallb_app, F1, F2. auto.
Qed.

Lemma read_response_silent l (w : World X) : effects (read_response l w).2 = effects w.
Proof. unfold read_response. destruct (deref (heap w) l); reflexivity. Qed.

Lemma new_response_silent v (w : World X) : effects (new_response v w).2 = effects w.
Proof. reflexivity. Qed.

Lemma write_raw_content_silent l v (w : World X) : effects (write_raw_content l v w).2 = effects w.
Proof.
  unfold write_raw_content.
  repeat (case_match; simpl; try reflexivity).
Qed.

Lemma write_message_content_silent l s (w : World X) :
  effects (write_message_content l s w).2 = effects w.
Proof.
  unfold write_message_content.
  repeat (case_match; simpl; try reflexivity).
Qed.

Lemma tool_call_silent (t : Tool X) i (w : World X) : effects (tool_call t i w).2 = effects w.
Proof. unfold tool_call. destruct (call t i (env w)); reflexivity. Qed.

Lemma deepcopy_adds P l : adds_only (X:=X) P (deepcopy l).
Proof.
  apply adds_only_bind.
  - apply adds_only_silent, read_response_silent.
  - intros v. apply adds_only_silent, new_response_silent.
Qed.

Lemma modify_action_input_adds P message c text part :
  adds_only P (modify_action_input (X:=X) G message c text part).
Proof.
  unfold modify_action_input.
  apply adds_only_bind; [apply adds_only_lift|intros j].
  apply adds_only_bind; [apply adds_only_lift|intros j'].
  apply adds_only_bind; [apply adds_only_silent, write_raw_content_silent|intros _].
  apply adds_only_silent, write_message_content_silent.
Qed.

(** The rewrite adds logged errors only. *)
Lemma enforce_question_adds P message c :
  (forall e, P (LoggingError e) = true) ->
  adds_only P (enforce_question (X:=X) G message c).
Proof.
  intros HP. unfold enforce_question.
  apply adds_only_bind; [apply adds_only_silent, read_response_silent|intros v].
  apply adds_only_bind; [apply adds_only_lift|intros rc].
  apply adds_only_bind; [apply adds_only_lift|intros [|]]; [|apply adds_only_ret].
  destruct rc; try apply adds_only_lift.
  apply adds_only_bind; [apply adds_only_lift|intros part].
  apply adds_only_try; [apply modify_action_input_adds|].
  intros e. apply adds_only_emit, HP.
Qed.

(** The dispatch adds the two events of the call only. *)
Lemma process_actions_adds P output :
  (forall i t, P (EventStart i t) = true) ->
  (forall o, P (EventEnd o) = true) ->
  adds_only P (_process_actions self output).
Proof.
  intros HS HE. unfold _process_actions.
  apply adds_only_bind; [apply adds_only_silent, read_response_silent|intros v].
  apply adds_only_bind; [apply adds_only_lift|intros [[t steps] [|]]]; [apply adds_only_ret|].
  apply adds_only_bind; [apply adds_only_lift|intros st].
  apply adds_only_bind; [apply adds_only_lift|intros a].
  apply adds_only_bind; [apply adds_only_lift|intros tool].
  apply adds_only_bind; [apply adds_only_lift|intros inp].
  apply adds_only_bind; [apply adds_only_emit, HS|intros _].
  apply adds_only_bind; [apply adds_only_silent, tool_call_silent|intros out].
  apply adds_only_bind; [apply adds_only_emit, HE|intros _].
  apply adds_only_ret.
Qed.

Lemma copy_and_enforce_adds P message l :
  (forall e, P (LoggingError e) = true) ->
  adds_only P (copy_and_enforce (X:=X) G message l).
Proof.
  intros HP. unfold copy_and_enforce.
  apply adds_only_bind; [apply deepcopy_adds|intros c].
  apply adds_only_bind; [apply enforce_question_adds, HP|intros _].
  apply adds_only_ret.
Qed.

Lemma calls_exactly_bind {A B} c (m : M X A) (k : A -> M X B) :
  calls_exactly c m -> (forall a, adds_only internal (k a)) -> calls_exactly c (bind m k).
Proof.
  intros Hm Hk w. unfold bind.
  destruct (Hm w) as (d1 & E1 & C1 & P1).
  destruct (m w) as [[a|e] w1]; simpl in *.
  - destruct (Hk a w1) as (d2 & E2 & F2).
    exists (d1 ++ d2).
    rewrite E2, E1, app_assoc, llm_calls_app, puts_app, C1, P1.
    rewrite (internal_llm_calls _ F2), (internal_puts _ F2). auto with arith.
  - exists d1. auto.
Qed.

Lemma llm_chat_calls input_chat : calls_exactly 1 (llm_chat self input_chat).
Proof.
  intros w. unfold llm_chat, bind, emit, new_response, ret. simpl.
  destruct (_llm self input_chat (env w)) as [[v|e] x]; simpl.
  - exists [LlmChat input_chat; LlmReturned (List.length (heap w) + 2) v].
    rewrite <- app_assoc. auto.
  - exists [LlmChat input_chat]. auto.
Qed.

Lemma prepare_output_calls message cur : calls_exactly 1 (prepare_output G self message cur).
Proof.
  intros w. unfold prepare_output, memory_get.
  unfold bind at 1. unfold bind at 1. unfold emit at 1. cbn beta iota.
  match goal with |- context [bind ?m ?k ?w1] =>
    destruct (calls_exactly_bind 1 m k) with (w := w1) as (d & E & C & P)
  end.
  - apply llm_chat_calls.
  - intros r. apply copy_and_enforce_adds. reflexivity.
  - exists (MemoryGet :: d). rewrite E. simpl. rewrite <- app_assoc. auto.
Qed.

Lemma chat_round_calls message cur : calls_exactly 1 (chat_round G self message cur).
Proof.
  apply calls_exactly_bind; [apply prepare_output_calls|intros c].
  apply adds_only_bind; [apply process_actions_adds; reflexivity|intros [steps done]].
  apply adds_only_ret.
Qed.

(** The loop calls the backend at most once for each round it is allowed,
    and puts nothing into memory. *)
Lemma chat_loop_effects message n : forall cur w,
  exists d, effects (chat_loop G self message n cur w).2 = effects w ++ d
            /\ llm_calls d <= n /\ puts d = [].
Proof.
  induction n as [|n IH]; intros cur w.
  - exists []. simpl. rewrite app_nil_r. auto.
  - simpl. unfold bind.
    destruct (chat_round_calls message cur w) as (d1 & E1 & C1 & P1).
    destruct (chat_round G self message cur w) as [[[cur1 [|]]|e] w1]; simpl in *.
    + exists d1. split; [assumption|]. split; [lia|assumption].
    + destruct (IH cur1 w1) as (d2 & E2 & C2 & P2).
      exists (d1 ++ d2). rewrite E2, E1, app_assoc, llm_calls_app, puts_app, P1, P2.
      split; [reflexivity|]. split; [lia|reflexivity].
    + exists d1. split; [assumption|]. split; [lia|assumption].
Qed.

Lemma chat_begin_run message history (w : World X) :
  chat_begin G message history w = (Ok tt, chat_start G message history w).
Proof.
  destruct history as [h|];
    unfold chat_begin, chat_start, memory_set, memory_put, bind, emit, ret; simpl;
    rewrite <- ?app_assoc; reflexivity.
Qed.

(** [chat] is its prologue, the loop, [_get_response] on the trace the loop
    ended with, and the put of the answer. *)
Lemma chat_run message history (w : World X) :
  chat G self message history w =
  match chat_loop G self message (_max_iterations self) [] (chat_start G message history w) with
  | (Ok cur, w1) =>
      match _get_response self cur with
      | Ok r => (Ok r, chat_end r w1)
      | Raise e => (Raise e, w1)
      end
  | (Raise e, w1) => (Raise e, w1)
  end.
Proof.
  unfold chat. unfold bind at 1. rewrite chat_begin_run.
  unfold bind at 1.
  destruct (chat_loop G self message (_max_iterations self) [] _) as [[cur|e] w1]; [|reflexivity].
  unfold bind, lift, memory_put, emit, ret, chat_end.
  destruct (_get_response self cur) as [r|e]; reflexivity.
Qed.

(** What one call of [chat] adds to the effects. *)
Lemma chat_effects message history (w : World X) :
  exists d, effects (chat G self message history w).2 = effects w ++ d
            /\ llm_calls d <= _max_iterations self
            /\ puts d = user_message G message ::
                        match (chat G self message history w).1 with
                        | Ok r => [assistant_message r]
                        | Raise _ => []
                        end.
Proof.
  rewrite chat_run.
  set (w0 := chat_start G message history w).
  set (d0 := match history with Some h => [MemorySet h] | None => [] end
             ++ [MemoryPut (user_message G message)]).
  assert (E0 : effects w0 = effects w ++ d0) by reflexivity.
  assert (C0 : llm_calls d0 = 0) by (destruct history; reflexivity).
  assert (P0 : puts d0 = [user_message G message]) by (destruct history; reflexivity).
  destruct (chat_loop_effects message (_max_iterations self) [] w0) as (d1 & E1 & C1 & P1).
  destruct (chat_loop G self message (_max_iterations self) [] w0) as [[cur|e] w1];
    change (effects w1 = effects w0 ++ d1) in E1.
  - destruct (_get_response self cur) as [r|e]; simpl.
    + exists (d0 ++ d1 ++ [MemoryPut (assistant_message r)]).
      rewrite E1, E0, !puts_app, !llm_calls_app, P0, P1, C0. simpl.
      rewrite <- !app_assoc. split; [reflexivity|]. split; [lia|reflexivity].
    + exists (d0 ++ d1).
      rewrite E1, E0, !puts_app, !llm_calls_app, P0, P1, C0. simpl.
      rewrite <- !app_assoc. split; [reflexivity|]. split; [lia|reflexivity].
  - exists (d0 ++ d1). simpl.
    rewrite E1, E0, !puts_app, !llm_calls_app, P0, P1, C0. simpl.
    rewrite <- !app_assoc. split; [reflexivity|]. split; [lia|reflexivity].
Qed.

(** ** Bounded iterations and the puts into memory *)

(** C7. With [max_iterations = k], one call of [chat] calls the
    language-model backend at most [k] times, whatever the backend, the
    parser and the tools do. *)
Theorem chat_calls_backend_at_most_max_iterations message history (w : World X) :
  exists d, effects (chat G self message history w).2 = effects w ++ d
            /\ llm_calls d <= _max_iterations self.
Proof.
  destruct (chat_effects message history w) as (d & E & C & _). eauto.
Qed.

(** C6, amended. A call of [chat] that returns has put exactly two messages
    into memory, whatever the number of rounds: the user message with the
    router text, before the loop, and the assistant message with the final
    response, after it. A call that raises has put the first only. *)
Theorem chat_puts_user_then_assistant message history (w : World X) :
  exists d, effects (chat G self message history w).2 = effects w ++ d
            /\ puts d = match (chat G self message history w).1 with
                        | Ok r => [user_message G message; assistant_message r]
                        | Raise _ => [user_message G message]
                        end.
Proof.
  destruct (chat_effects message history w) as (d & E & _ & P).
  exists d. split; [assumption|].
  rewrite P. destruct (chat G self message history w).1; reflexivity.
Qed.

(** ** Exceptions of the dispatch *)

Lemma loop_reaches_run message n cur w n' cur' w' :
  loop_reaches G self message n cur w n' cur' w' ->
  chat_loop G self message n cur w = chat_loop G self message n' cur' w'.
Proof.
  induction 1 as [|n cur w cur1 w1 n' cur' w' Hround _ IH]; [reflexivity|].
  simpl. unfold bind. rewrite Hround. exact IH.
Qed.

Lemma chat_round_raises message cur (w : World X) c w1 e w2 :
  prepare_output G self message cur w = (Ok c, w1) ->
  _process_actions self c w1 = (Raise e, w2) ->
  chat_round G self message cur w = (Raise e, w2).
Proof.
  intros Hp Ha. unfold chat_round, bind. rewrite Hp, Ha. reflexivity.
Qed.

(** An exception of a round is the exception of [chat]: nothing catches
    it, and the state is left as it was when it was raised. *)
Lemma chat_raises_with_round message history (w0 : World X) n cur w e w' :
  loop_reaches G self message (_max_iterations self) [] (chat_start G message history w0)
    (S n) cur w ->
  chat_round G self message cur w = (Raise e, w') ->
  chat G self message history w0 = (Raise e, w').
Proof.
  intros Hreach Hround.
  rewrite chat_run, (loop_reaches_run _ _ _ _ _ _ _ Hreach).
  simpl. unfold bind. rewrite Hround. reflexivity.
Qed.

Lemma read_response_run (w : World X) l v :
  deref (heap w) l = Some v -> read_response l w = (Ok v, w).
Proof. intros H. unfold read_response. rewrite H. reflexivity. Qed.

(** C1, amended. When, in some round of a chat turn, the parsed reasoning
    step names an action that is absent from the tool registry, the lookup
    in [_process_actions] raises [KeyError] for that name and nothing
    catches it: [chat] raises it too. No observation is recorded, no event
    is emitted, and the state is the one the lookup found, so the final
    answer is not put into memory and no further round runs. *)
Theorem unknown_tool_raises_key_error message history (w0 : World X)
    n cur w c w1 out text steps thought action action_input :
  loop_reaches G self message (_max_iterations self) [] (chat_start G message history w0)
    (S n) cur w ->
  prepare_output G self message cur w = (Ok c, w1) ->
  deref (heap w1) c = Some out ->
  _extract_reasoning_step self out = Ok (text, steps, false) ->
  last steps = Some (ActionReasoningStep thought action action_input) ->
  _tools_dict self !! action = None ->
  _process_actions self c w1 = (Raise (KeyError action), w1)
  /\ chat G self message history w0 = (Raise (KeyError action), w1).
Proof.
  intros Hreach Hp Hout Hparse Hlast Htool.
  assert (Ha : _process_actions self c w1 = (Raise (KeyError action), w1)).
  { unfold _process_actions. unfold bind at 1. rewrite (read_response_run _ _ _ Hout).
    unfold bind at 1. unfold lift at 1. rewrite Hparse.
    cbn beta iota. unfold bind at 1, lift at 1, list_last_item. rewrite Hlast.
    unfold bind at 1, lift at 1. cbn [step_action].
    unfold bind at 1, lift at 1, tools_getitem. rewrite Htool. reflexivity. }
  split; [exact Ha|].
  eapply chat_raises_with_round; [exact Hreach|].
  eapply chat_round_raises; eassumption.
Qed.

(** C2, amended. When, in some round of a chat turn, the call of the tool
    raises, the exception is not caught: [_process_actions] raises it after
    the event that opens the call, no observation is appended, and [chat]
    raises the same exception. *)
Theorem tool_exception_escapes_chat message history (w0 : World X)
    n cur w c w1 out text steps thought action action_input tool e x :
  loop_reaches G self message (_max_iterations self) [] (chat_start G message history w0)
    (S n) cur w ->
  prepare_output G self message cur w = (Ok c, w1) ->
  deref (heap w1) c = Some out ->
  _extract_reasoning_step self out = Ok (text, steps, false) ->
  last steps = Some (ActionReasoningStep thought action action_input) ->
  _tools_dict self !! action = Some tool ->
  call tool action_input (env w1) = (Raise e, x) ->
  let w2 := mkWorld (memory w1) (heap w1) x
              (effects w1 ++ [EventStart action_input (metadata tool)]) in
  _process_actions self c w1 = (Raise e, w2)
  /\ chat G self message history w0 = (Raise e, w2).
Proof.
  intros Hreach Hp Hout Hparse Hlast Htool Hcall w2.
  assert (Ha : _process_actions self c w1 = (Raise e, w2)).
  { unfold _process_actions. unfold bind at 1. rewrite (read_response_run _ _ _ Hout).
    unfold bind at 1. unfold lift at 1. rewrite Hparse.
    cbn beta iota. unfold bind at 1, lift at 1, list_last_item. rewrite Hlast.
    unfold bind at 1, lift at 1. cbn [step_action].
    unfold bind at 1, lift at 1, tools_getitem. rewrite Htool.
    unfold bind at 1, lift at 1. cbn [step_action_input].
    unfold bind at 1, emit at 1.
    unfold bind at 1, tool_call at 1. cbn [env heap memory effects].
    rewrite Hcall. reflexivity. }
  split; [exact Ha|].
  eapply chat_raises_with_round; [exact Hreach|].
  eapply chat_round_raises; eassumption.
Qed.

(** ** The shape of the reasoning trace *)

Lemma pairs_observation_follows_action l :
  action_observation_pairs l ->
  forall i o, l !! i = Some (ObservationReasoningStep o) ->
    exists j thought action action_input,
      i = S j /\ l !! j = Some (ActionReasoningStep thought action action_input).
Proof.
  induction 1 as [|l th a inp ob _ IH]; intros i o Hi.
  - rewrite lookup_nil in Hi. discriminate.
  - apply lookup_app_Some in Hi as [Hi|[Hlen Hi]].
    + destruct (IH i o Hi) as (j & th' & a' & inp' & -> & Hj).
      exists j, th', a', inp'. split; [reflexivity|].
      apply lookup_app_l_Some. exact Hj.
    + destruct (i - List.length l) as [|[|k]] eqn:Ek; simpl in Hi; try discriminate.
      exists (List.length l), th, a, inp. split; [lia|].
      rewrite lookup_app_r by lia. rewrite Nat.sub_diag. reflexivity.
Qed.

Lemma pairs_no_final l : action_observation_pairs l -> existsb is_final l = false.
Proof.
  induction 1 as [|l th a inp ob _ IH]; [reflexivity|].
  rewrite existsb_app, IH. reflexivity.
Qed.

(** Under the contract of the parser, [_process_actions] returns either
    one final answer, ending the turn, or one action and its observation. *)
Lemma process_actions_steps (w : World X) output steps (is_done : bool) w' :
  parser_contract self ->
  _process_actions self output w = (Ok (steps, is_done), w') ->
  (is_done = true /\ exists thought r, steps = [FinalAnswerStep thought r])
  \/ (is_done = false /\ exists thought action action_input observation,
        steps = [ActionReasoningStep thought action action_input;
                 ObservationReasoningStep observation]).
Proof.
  intros Hparser. unfold _process_actions.
  unfold bind at 1. destruct (read_response output w) as [[out|e] w0]; [|discriminate].
  unfold bind at 1, lift at 1.
  destruct (_extract_reasoning_step self out) as [[[text steps0] done]|e] eqn:Hparse; [|discriminate].
  destruct (Hparser _ _ _ _ Hparse) as (st & -> & Hfinal).
  destruct done.
  - unfold ret. intros [= <- <- <-]. left. split; [reflexivity|].
    destruct st; try (specialize (Hfinal eq_refl); discriminate). eauto.
  - cbn beta iota. unfold bind at 1, lift at 1. cbn [list_last_item last].
    destruct st as [th a inp|o|th r]; cbn [step_action];
      unfold bind at 1, lift at 1; try discriminate.
    unfold bind at 1, lift at 1. destruct (tools_getitem self a) as [tool|e]; [|discriminate].
    unfold bind at 1, lift at 1. cbn [step_action_input].
    unfold bind at 1, emit at 1.
    unfold bind at 1. destruct (tool_call tool inp _) as [[obs|e] w1]; [|discriminate].
    unfold bind, emit, ret. intros [= <- <- <-].
    right. split; [reflexivity|]. simpl. eauto.
Qed.

Lemma chat_round_steps message cur (w : World X) cur' (is_done : bool) w' :
  parser_contract self ->
  chat_round G self message cur w = (Ok (cur', is_done), w') ->
  (is_done = true /\ exists thought r, cur' = cur ++ [FinalAnswerStep thought r])
  \/ (is_done = false /\ exists thought action action_input observation,
        cur' = cur ++ [ActionReasoningStep thought action action_input;
                       ObservationReasoningStep observation]).
Proof.
  intros Hparser. unfold chat_round.
  unfold bind at 1. destruct (prepare_output G self message cur w) as [[c|e] w0]; [|discriminate].
  unfold bind at 1.
  destruct (_process_actions self c w0) as [[[steps done]|e] w1] eqn:Ha; [|discriminate].
  unfold ret. intros [= <- <- <-].
  destruct (process_actions_steps _ _ _ _ _ Hparser Ha) as [[-> (th & r & ->)]|[-> (th & a & inp & o & ->)]];
    [left|right]; split; eauto.
Qed.

(** The loop keeps the trace in pairs until a final answer ends it. *)
Lemma chat_loop_trace message n :
  parser_contract self ->
  forall cur (w : World X) trace w',
    action_observation_pairs cur ->
    chat_loop G self message n cur w = (Ok trace, w') ->
    (exists init thought r,
        trace = init ++ [FinalAnswerStep thought r] /\ action_observation_pairs init)
    \/ (action_observation_pairs trace /\ List.length trace = List.length cur + 2 * n).
Proof.
  intros Hparser. induction n as [|n IH]; intros cur w trace w' Hcur.
  - simpl. unfold ret. intros [= <- <-]. right. split; [assumption|lia].
  - simpl. unfold bind.
    destruct (chat_round G self message cur w) as [[[cur1 done]|e] w1] eqn:Hround; [|discriminate].
    destruct (chat_round_steps _ _ _ _ _ _ Hparser Hround)
      as [[-> (th & r & ->)]|[-> (th & a & inp & o & ->)]].
    + unfold ret. intros [= <- <-]. left. eauto.
    + intros Hloop. apply IH in Hloop; [|constructor; assumption].
      destruct Hloop as [Hfin|[Hpairs Hlen]]; [left; assumption|].
      right. split; [assumption|]. rewrite Hlen, length_app. simpl. lia.
Qed.

(** C9. Provided the inherited parser keeps its contract (one step for a
    completion, a final answer when it ends the turn), the reasoning trace
    of a chat turn, as the loop hands it to [_get_response], has every
    observation immediately preceded by an action (so no observation is
    first and no two are adjacent), and it either ends in a final answer
    that is its only one, or has no final answer and holds the action and
    the observation of each of the [max_iterations] rounds. *)
Theorem trace_alternates message (w : World X) trace w' :
  parser_contract self ->
  chat_loop G self message (_max_iterations self) [] w = (Ok trace, w') ->
  (forall i o, trace !! i = Some (ObservationReasoningStep o) ->
     exists j thought action action_input,
       i = S j /\ trace !! j = Some (ActionReasoningStep thought action action_input))
  /\ ((exists init thought r,
         trace = init ++ [FinalAnswerStep thought r] /\ existsb is_final init = false)
      \/ (existsb is_final trace = false
          /\ List.length trace = 2 * _max_iterations self)).
Proof.
  intros Hparser Hloop.
  apply (chat_loop_trace _ _ Hparser) in Hloop; [|constructor].
  destruct Hloop as [(init & th & r & -> & Hinit)|[Hpairs Hlen]].
  - split.
    + intros i o Hi. apply lookup_app_Some in Hi as [Hi|[Hlen Hi]].
      * destruct (pairs_observation_follows_action _ Hinit i o Hi)
          as (j & th' & a' & inp' & -> & Hj).
        exists j, th', a', inp'. split; [reflexivity|].
        apply lookup_app_l_Some. exact Hj.
      * destruct (i - List.length init) as [|k]; simpl in Hi; discriminate.
    + left. exists init, th, r. split; [reflexivity|]. apply pairs_no_final. assumption.
  - split.
    + apply pairs_observation_follows_action. assumption.
    + right. split; [apply pairs_no_final; assumption|]. simpl in Hlen. exact Hlen.
Qed.

(** ** The response of the backend is not modified *)

Lemma heap_extends_refl h : heap_extends h h.
Proof. intros i o H. exact H. Qed.

Lemma heap_extends_trans h1 h2 h3 :
  heap_extends h1 h2 -> heap_extends h2 h3 -> heap_extends h1 h3.
Proof. intros H12 H23 i o H. apply H23, H12, H. Qed.

Lemma heap_extends_app h l : heap_extends h (h ++ l).
Proof. intros i o H. apply lookup_app_l_Some. exact H. Qed.

Lemma heap_extends_insert h0 h i o :
  List.length h0 <= i -> heap_extends h0 h -> heap_extends h0 (<[i := o]> h).
Proof.
  intros Hi H j o' Hj.
  rewrite list_lookup_insert_ne; [apply H, Hj|].
  apply lookup_lt_Some in Hj. lia.
Qed.

Lemma deref_extends h h' l v :
  heap_extends h h' -> deref h l = Some v -> deref h' l = Some v.
Proof.
  intros H. unfold deref.
  destruct (h !! l) as [[lm lr|m|r]|] eqn:El; try discriminate.
  destruct (h !! lm) as [[| m |]|] eqn:Em; try discriminate.
  destruct (h !! lr) as [[| | r]|] eqn:Er; try discriminate.
  intros [= <-].
  rewrite (H _ _ El), (H _ _ Em), (H _ _ Er). reflexivity.
Qed.

Lemma deref_alloc h v :
  deref (alloc_response h v).2 (alloc_response h v).1 = Some v.
Proof.
  unfold alloc_response, deref. cbn [fst snd].
  rewrite lookup_app_r by lia.
  replace (List.length h + 2 - List.length h) with 2 by lia. cbn [lookup list_lookup].
  rewrite (lookup_app_r h _ (List.length h)) by lia.
  rewrite Nat.sub_diag. cbn [lookup list_lookup].
  rewrite lookup_app_r by lia.
  replace (List.length h + 1 - List.length h) with 1 by lia. cbn [lookup list_lookup].
  destruct v. reflexivity.
Qed.

Lemma private_to_insert h0 h c i o :
  (forall lm lr, o <> ChatResponseObj lm lr) ->
  private_to h0 h c -> private_to h0 (<[i := o]> h) c.
Proof.
  intros Ho H lm lr Hc.
  destruct (decide (i = c)) as [->|Hne].
  - destruct (decide (c < List.length h)) as [Hlt|Hge].
    + rewrite list_lookup_insert_eq in Hc by exact Hlt.
      injection Hc as ->. exfalso. eapply Ho. reflexivity.
    + rewrite list_insert_ge in Hc by lia. apply H, Hc.
  - rewrite list_lookup_insert_ne in Hc by exact Hne. apply H, Hc.
Qed.

Lemma frames_same {A} h0 c (m : M X A) :
  (forall w, heap (m w).2 = heap w) -> frames h0 c m.
Proof. intros H w He Hp. rewrite H. auto. Qed.

Lemma frames_bind {A B} h0 c (m : M X A) (k : A -> M X B) :
  frames h0 c m -> (forall a, frames h0 c (k a)) -> frames h0 c (bind m k).
Proof.
  intros Hm Hk w He Hp. unfold bind.
  destruct (Hm w He Hp) as [He1 Hp1].
  destruct (m w) as [[a|e] w1]; simpl in *; [|auto].
  apply Hk; assumption.
Qed.

Lemma frames_try {A} h0 c (m : M X A) (h : PyExc -> M X A) :
  frames h0 c m -> (forall e, frames h0 c (h e)) -> frames h0 c (try_except m h).
Proof.
  intros Hm Hh w He Hp. unfold try_except.
  destruct (Hm w He Hp) as [He1 Hp1].
  destruct (m w) as [[a|e] w1]; simpl in *; [auto|].
  apply Hh; assumption.
Qed.

Lemma frames_write_raw_content h0 c v : frames (X:=X) h0 c (write_raw_content c v).
Proof.
  intros w He Hp. unfold write_raw_content.
  destruct (heap w !! c) as [[lm lr|m|r]|] eqn:Ec; simpl; auto.
  destruct (heap w !! lr) as [[| |r]|]; simpl; auto.
  destruct (raw_set_content r v) as [r'|e]; simpl; auto.
  destruct (Hp _ _ Ec) as [_ Hlr].
  split; [apply heap_extends_insert; assumption|].
  apply private_to_insert; [discriminate|assumption].
Qed.

Lemma frames_write_message_content h0 c s :
  frames (X:=X) h0 c (write_message_content c s).
Proof.
  intros w He Hp. unfold write_message_content.
  destruct (heap w !! c) as [[lm lr|m|r]|] eqn:Ec; simpl; auto.
  destruct (heap w !! lm) as [[|m|]|]; simpl; auto.
  destruct (Hp _ _ Ec) as [Hlm _].
  split; [apply heap_extends_insert; assumption|].
  apply private_to_insert; [discriminate|assumption].
Qed.

Lemma read_response_heap l (w : World X) : heap (read_response l w).2 = heap w.
Proof. unfold read_response. destruct (deref (heap w) l); reflexivity. Qed.

(** The rewrite writes to its copy only. *)
Lemma frames_enforce_question h0 message c :
  frames h0 c (enforce_question (X:=X) G message c).
Proof.
  unfold enforce_question.
  apply frames_bind; [apply frames_same, read_response_heap|intros v].
  apply frames_bind; [apply frames_same; reflexivity|intros rc].
  apply frames_bind; [apply frames_same; reflexivity|intros [|]];
    [|apply frames_same; reflexivity].
  destruct rc; try (apply frames_same; reflexivity).
  apply frames_bind; [apply frames_same; reflexivity|intros part].
  apply frames_try; [|intros e; apply frames_same; reflexivity].
  unfold modify_action_input.
  apply frames_bind; [apply frames_same; reflexivity|intros j].
  apply frames_bind; [apply frames_same; reflexivity|intros j'].
  apply frames_bind; [apply frames_write_raw_content|intros _].
  apply frames_write_message_content.
Qed.

Lemma process_actions_heap output (w : World X) :
  heap (_process_actions self output w).2 = heap w.
Proof.
  unfold _process_actions, bind, lift, ret, emit, tool_call, read_response.
  repeat (case_match; simpl; try reflexivity; try congruence).
  all: repeat match goal with H : (_, _) = (_, _) |- _ => injection H as ? ?; subst end;
       simpl; try reflexivity.
Qed.

Lemma returned_app (d1 d2 : list Effect) : returned (d1 ++ d2) = returned d1 ++ returned d2.
Proof.
  induction d1 as [|e d1 IH]; [reflexivity|].
  destruct e; simpl; rewrite IH; reflexivity.
Qed.

Lemma no_answer_returned (d : list Effect) : forallb no_answer d = true -> returned d = [].
Proof.
  induction d as [|e d IH]; [reflexivity|].
  destruct e; simpl; intros H; try discriminate; auto.
Qed.

(** The store is intact for [d]: every object the backend returned in [d]
    holds the value it was returned with. *)
Lemma copy_and_enforce_frame message l (w : World X) v :
  deref (heap w) l = Some v ->
  let w' := (copy_and_enforce G message l w).2 in
  heap_extends (heap w) (heap w')
  /\ exists d, effects w' = effects w ++ d /\ returned d = [].
Proof.
  intros Hv w'. split.
  - subst w'. unfold copy_and_enforce, deepcopy. unfold bind at 1. unfold bind at 1.
    rewrite (read_response_run _ _ _ Hv). unfold new_response, alloc_response.
    cbn beta iota.
    match goal with |- context [bind ?m ?k ?w1] =>
      destruct (frames_bind (heap w) (List.length (heap w) + 2) m k) with (w := w1) as [He _]
    end.
    + apply frames_enforce_question.
    + intros _. apply frames_same. reflexivity.
    + apply heap_extends_app.
    + intros lm lr. cbn [heap]. rewrite lookup_app_r by lia.
      replace (List.length (heap w) + 2 - List.length (heap w)) with 2 by lia.
      intros [= <- <-]. lia.
    + exact He.
  - subst w'.
    destruct (copy_and_enforce_adds no_answer message l) with (w := w) as (d & E & F);
      [reflexivity|].
    exists d. split; [exact E|]. apply no_answer_returned, F.
Qed.

(** The first half of a round, up to the answer of the backend. *)
Lemma prepare_output_run message cur (w : World X) :
  prepare_output G self message cur w =
  let input_chat := _react_chat_formatter self (memory w) cur in
  match _llm self input_chat (env w) with
  | (Ok v, x) =>
      copy_and_enforce G message (alloc_response (heap w) v).1
        (mkWorld (memory w) (alloc_response (heap w) v).2 x
           (effects w ++ [MemoryGet; LlmChat input_chat;
                          LlmReturned (alloc_response (heap w) v).1 v]))
  | (Raise e, x) =>
      (Raise e, mkWorld (memory w) (heap w) x (effects w ++ [MemoryGet; LlmChat input_chat]))
  end.
Proof.
  unfold prepare_output, memory_get, llm_chat.
  unfold bind at 1. unfold bind at 1. unfold emit at 1. cbn beta iota.
  unfold bind at 1. unfold bind at 1. unfold emit at 1. cbn beta iota.
  unfold bind at 1. cbn [env memory heap effects].
  destruct (_llm self _ (env w)) as [[v|e] x]; cbn beta iota zeta.
  - unfold bind at 1. unfold new_response at 1. cbn [heap memory env effects].
    unfold alloc_response. cbn [fst snd].
    unfold bind at 1, emit at 1, ret at 1. cbn beta iota. cbn [heap memory env effects].
    rewrite <- !app_assoc. reflexivity.
  - rewrite <- !app_assoc. reflexivity.
Qed.

Lemma prepare_output_frame message cur (w : World X) :
  let w' := (prepare_output G self message cur w).2 in
  heap_extends (heap w) (heap w')
  /\ exists d, effects w' = effects w ++ d
               /\ forall l v, In (l, v) (returned d) -> deref (heap w') l = Some v.
Proof.
  cbn zeta. rewrite prepare_output_run. cbn zeta.
  destruct (_llm self _ (env w)) as [[v|e] x].
  - set (l := (alloc_response (heap w) v).1).
    set (h1 := (alloc_response (heap w) v).2).
    assert (Hv : deref h1 l = Some v) by apply deref_alloc.
    assert (He1 : heap_extends (heap w) h1) by apply heap_extends_app.
    match goal with |- context [copy_and_enforce G message l ?w1] =>
      destruct (copy_and_enforce_frame message l w1 v Hv) as [He2 (d & E & R)]
    end.
    split; [eapply heap_extends_trans; eassumption|].
    exists (MemoryGet :: LlmChat (_react_chat_formatter self (memory w) cur)
              :: LlmReturned l v :: d).
    split.
    + rewrite E. cbn [effects]. rewrite <- !app_assoc. reflexivity.
    + simpl. rewrite R. intros l' v' [[= <- <-]|[]].
      eapply deref_extends; eassumption.
  - split; [apply heap_extends_refl|].
    exists [MemoryGet; LlmChat (_react_chat_formatter self (memory w) cur)].
    split; [reflexivity|].
    intros l v [].
Qed.

Lemma chat_round_run message cur (w : World X) :
  chat_round G self message cur w =
  match prepare_output G self message cur w with
  | (Ok c, w1) =>
      match _process_actions self c w1 with
      | (Ok (steps, is_done), w2) => (Ok (cur ++ steps, is_done), w2)
      | (Raise e, w2) => (Raise e, w2)
      end
  | (Raise e, w1) => (Raise e, w1)
  end.
Proof.
  unfold chat_round, bind, ret.
  destruct (prepare_output G self message cur w) as [[c|e] w1]; [|reflexivity].
  destruct (_process_actions self c w1) as [[[steps done]|e] w2]; reflexivity.
Qed.

Lemma chat_round_frame message cur (w : World X) :
  let w' := (chat_round G self message cur w).2 in
  heap_extends (heap w) (heap w')
  /\ exists d, effects w' = effects w ++ d
               /\ forall l v, In (l, v) (returned d) -> deref (heap w') l = Some v.
Proof.
  cbn zeta. rewrite chat_round_run.
  destruct (prepare_output_frame message cur w) as [He (d & E & R)].
  destruct (prepare_output G self message cur w) as [[c|e] w1]; cbn [fst snd] in *.
  - destruct (process_actions_adds no_answer c) with (w := w1) as (d2 & E2 & F2);
      [reflexivity|reflexivity|].
    pose proof (process_actions_heap c w1) as Hh.
    assert (Hw : let w2 := (_process_actions self c w1).2 in
                 heap_extends (heap w) (heap w2)
                 /\ exists d, effects w2 = effects w ++ d
                      /\ forall l v, In (l, v) (returned d) -> deref (heap w2) l = Some v).
    { cbn zeta. rewrite Hh. split; [exact He|].
      exists (d ++ d2). rewrite E2, E, app_assoc. split; [reflexivity|].
      rewrite returned_app, (no_answer_returned _ F2), app_nil_r. exact R. }
    destruct (_process_actions self c w1) as [[[steps done]|e] w2]; exact Hw.
  - split; [exact He|]. exists d. auto.
Qed.

Lemma chat_loop_frame message n : forall cur (w : World X),
  let w' := (chat_loop G self message n cur w).2 in
  heap_extends (heap w) (heap w')
  /\ exists d, effects w' = effects w ++ d
               /\ forall l v, In (l, v) (returned d) -> deref (heap w') l = Some v.
Proof.
  induction n as [|n IH]; intros cur w; cbn zeta.
  - split; [apply heap_extends_refl|]. exists []. simpl. rewrite app_nil_r.
    split; [reflexivity|]. intros l v [].
  - simpl. unfold bind.
    destruct (chat_round_frame message cur w) as [He (d & E & R)].
    destruct (chat_round G self message cur w) as [[[cur1 [|]]|e] w1]; cbn [fst snd] in *.
    + split; [exact He|]. exists d. auto.
    + destruct (IH cur1 w1) as [He2 (d2 & E2 & R2)]. cbn zeta in He2, E2, R2.
      split; [eapply heap_extends_trans; eassumption|].
      exists (d ++ d2). rewrite E2, E, app_assoc. split; [reflexivity|].
      intros l v Hin. rewrite returned_app in Hin. apply in_app_or in Hin as [Hin|Hin].
      * eapply deref_extends; [exact He2|]. apply R, Hin.
      * apply R2, Hin.
    + split; [exact He|]. exists d. auto.
Qed.

(** C8. [chat] never modifies the response object the backend returned,
    whether a rewrite is applied or not: when [chat] ends, by a return or
    by an exception, every object that was in the store before the call is
    unchanged, and every response object the backend returned during the
    call holds the value the backend returned. The rewrite writes to the
    deep copy only. *)
Theorem backend_response_never_mutated message history (w : World X) :
  let w' := (chat G self message history w).2 in
  heap_extends (heap w) (heap w')
  /\ exists d, effects w' = effects w ++ d
               /\ forall l v, In (l, v) (returned d) -> deref (heap w') l = Some v.
Proof.
  cbn zeta. rewrite chat_run.
  set (w0 := chat_start G message history w).
  set (d0 := match history with Some h => [MemorySet h] | None => [] end
             ++ [MemoryPut (user_message G message)]).
  assert (E0 : effects w0 = effects w ++ d0) by reflexivity.
  assert (R0 : returned d0 = []) by (destruct history; reflexivity).
  assert (H0 : heap w0 = heap w) by reflexivity.
  destruct (chat_loop_frame message (_max_iterations self) [] w0) as [He (d & E & R)].
  cbn zeta in He, E, R. rewrite H0 in He.
  destruct (chat_loop G self message (_max_iterations self) [] w0) as [[cur|e] w1];
    cbn [fst snd] in *.
  - destruct (_get_response self cur) as [r|e]; cbn [fst snd chat_end heap effects].
    + split; [exact He|].
      exists (d0 ++ d ++ [MemoryPut (assistant_message r)]).
      rewrite E, E0, <- !app_assoc. split; [reflexivity|].
      rewrite !returned_app, R0, app_nil_l. simpl. rewrite app_nil_r. exact R.
    + split; [exact He|]. exists (d0 ++ d).
      rewrite E, E0, <- !app_assoc. split; [reflexivity|].
      rewrite returned_app, R0. exact R.
  - split; [exact He|]. exists (d0 ++ d).
    rewrite E, E0, <- !app_assoc. split; [reflexivity|].
    rewrite returned_app, R0. exact R.
Qed.

(** ** The rewrite of the action input *)

Lemma split_from_nonempty sep s : forall skip cur, split_from sep skip cur s <> [].
Proof.
  induction s as [|c s IH]; intros skip cur; cbn [split_from]; [congruence|].
  destruct skip; [|apply IH].
  destruct (String.prefix sep (String c s)); [congruence|apply IH].
Qed.

Lemma str_contains_cons sub c s :
  str_contains sub (String c s) = String.prefix sub (String c s) || str_contains sub s.
Proof. reflexivity. Qed.

(** A text that contains the separator splits in two pieces at least. *)
Lemma split_from_contains sep s :
  sep <> EmptyString -> forall cur,
  str_contains sep s = true ->
  exists p q l, split_from sep 0 cur s = p :: q :: l.
Proof.
  intros Hsep. induction s as [|c s IH]; intros cur Hc.
  - destruct sep; [congruence|]. simpl in Hc. discriminate.
  - rewrite str_contains_cons in Hc. cbn [split_from].
    destruct (String.prefix sep (String c s)) eqn:Ep.
    + pose proof (split_from_nonempty sep s (String.length sep - 1) EmptyString) as Hne.
      destruct (split_from sep (String.length sep - 1) EmptyString s) as [|q l]; [congruence|].
      eauto.
    + apply IH. exact Hc.
Qed.

Lemma action_input_part_ok text :
  str_contains "Action Input:" text = true -> exists part, action_input_part text = Ok part.
Proof.
  intros Hc. unfold action_input_part, str_split, list_getitem.
  destruct (split_from_contains "Action Input:" text) with (cur := EmptyString)
    as (p & q & l & ->); [discriminate|exact Hc|].
  simpl. eauto.
Qed.

Lemma dict_get_set_eq {V} k (v : V) d : dict_get k (dict_set k v d) = Some v.
Proof.
  induction d as [|[k' v'] d IH]; simpl.
  - rewrite String.eqb_refl. reflexivity.
  - destruct (String.eqb k' k) eqn:E; simpl; rewrite E; [reflexivity|exact IH].
Qed.

Lemma dict_get_set_ne {V} k k' (v : V) d :
  k <> k' -> dict_get k' (dict_set k v d) = dict_get k' d.
Proof.
  intros Hne. induction d as [|[k0 v0] d IH]; simpl.
  - apply String.eqb_neq in Hne. rewrite Hne. reflexivity.
  - destruct (String.eqb k0 k) eqn:E; simpl.
    + apply String.eqb_eq in E as ->.
      apply String.eqb_neq in Hne. rewrite Hne. reflexivity.
    + rewrite IH. reflexivity.
Qed.

Lemma dict_set_absent {V} k (v : V) d : dict_get k d = None -> dict_set k v d = d ++ [(k, v)].
Proof.
  induction d as [|[k' v'] d IH]; simpl; [reflexivity|].
  destruct (String.eqb k' k); [discriminate|].
  intros H. rewrite (IH H). reflexivity.
Qed.

(** Where the content can be read in a payload, it can be written, and is
    read back. *)
Lemma raw_set_after_get r c0 v :
  raw_get_content r = Ok c0 ->
  exists r', raw_set_content r v = Ok r' /\ raw_get_content r' = Ok v.
Proof.
  unfold raw_get_content, raw_set_content.
  destruct r as [| | | | |l|top]; try discriminate. cbn [py_getitem_key].
  destruct (dict_get "choices" top) as [cs|] eqn:Ecs; [|discriminate].
  destruct cs as [| | | |t|[|c cs]|dd]; try discriminate.
  - destruct t; discriminate.
  - cbn [py_getitem_0 list_getitem lookup list_lookup].
    destruct c as [| | | | | |cd]; try discriminate. cbn [py_getitem_key].
    destruct (dict_get "message" cd) as [m|] eqn:Em; [|discriminate].
    destruct m as [| | | | | |md]; try discriminate. cbn [py_getitem_key py_setitem_key].
    destruct (dict_get "content" md) as [c1|] eqn:Ec; [|discriminate].
    intros _. eexists. split; [reflexivity|].
    cbn [py_getitem_key]. rewrite dict_get_set_eq.
    cbn [py_getitem_0 list_getitem lookup list_lookup py_getitem_key].
    rewrite dict_get_set_eq. cbn [py_getitem_key]. rewrite dict_get_set_eq. reflexivity.
Qed.

(** The two writes of the rewrite, on an object of the store. *)
Lemma write_content_run (w : World X) c out v s r' :
  deref (heap w) c = Some out ->
  raw_set_content (raw out) v = Ok r' ->
  exists h',
    bind (write_raw_content c v) (fun _ => write_message_content c s) w
    = (Ok tt, mkWorld (memory w) h' (env w) (effects w))
    /\ deref h' c = Some (mkChatResponse (mkChatMessage (role (message out)) (Some s)) r').
Proof.
  unfold deref.
  destruct (heap w !! c) as [[lm lr|?|?]|] eqn:Ec; try discriminate.
  destruct (heap w !! lm) as [[|m|]|] eqn:Em; try discriminate.
  destruct (heap w !! lr) as [[| |r]|] eqn:Er; try discriminate.
  intros [= <-] Hset. cbn [raw message] in *.
  assert (c <> lr) by congruence. assert (c <> lm) by congruence.
  assert (lm <> lr) by congruence.
  pose proof (lookup_lt_Some _ _ _ Em). pose proof (lookup_lt_Some _ _ _ Er).
  eexists. split.
  - unfold bind, write_raw_content. rewrite Ec, Er, Hset.
    unfold write_message_content. cbn [heap memory env effects].
    rewrite list_lookup_insert_ne by congruence. rewrite Ec.
    rewrite list_lookup_insert_ne by congruence. rewrite Em. reflexivity.
  - rewrite !list_lookup_insert_ne by congruence. rewrite Ec.
    rewrite list_lookup_insert_eq by (rewrite length_insert; assumption).
    rewrite list_lookup_insert_ne by congruence.
    rewrite list_lookup_insert_eq by assumption. reflexivity.
Qed.

(** The rewrite when the part after the marker is a JSON object: the new
    content is in both fields of the object, and nothing is logged. *)
Lemma enforce_question_rewrites question (w : World X) c out text part d :
  deref (heap w) c = Some out ->
  raw_get_content (raw out) = Ok (PyStr text) ->
  str_contains "Action Input:" text = true ->
  action_input_part text = Ok part ->
  json_loads G part = Ok (PyDict d) ->
  exists h' r',
    enforce_question G question c w = (Ok tt, mkWorld (memory w) h' (env w) (effects w))
    /\ deref h' c
       = Some (mkChatResponse
                 (mkChatMessage (role (message out))
                    (Some (rewritten_content G question text part d))) r')
    /\ raw_get_content r' = Ok (PyStr (rewritten_content G question text part d)).
Proof.
  intros Hout Hget Hc Hpart Hloads.
  destruct (raw_set_after_get _ _ (PyStr (rewritten_content G question text part d)) Hget)
    as (r' & Hset & Hget').
  destruct (write_content_run w c out _ (rewritten_content G question text part d) r' Hout Hset)
    as (h' & Hrun & Hd).
  exists h', r'. split; [|split; assumption].
  unfold enforce_question. unfold bind at 1. rewrite (read_response_run _ _ _ Hout).
  unfold bind at 1, lift at 1. rewrite Hget.
  unfold bind at 1, lift at 1. cbn [py_contains]. rewrite Hc.
  unfold bind at 1, lift at 1. rewrite Hpart.
  unfold try_except, modify_action_input.
  unfold bind at 1, lift at 1. rewrite Hloads.
  unfold bind at 1, lift at 1. cbn [py_setitem_key].
  unfold rewritten_content in Hrun. rewrite Hrun. reflexivity.
Qed.

(** The rewrite when the part after the marker is no JSON object: the error
    is logged and nothing else changes. *)
Lemma enforce_question_falls_back message (w : World X) c out text :
  deref (heap w) c = Some out ->
  raw_get_content (raw out) = Ok (PyStr text) ->
  str_contains "Action Input:" text = true ->
  action_input_record G text = None ->
  exists e,
    enforce_question G message c w
    = (Ok tt, mkWorld (memory w) (heap w) (env w) (effects w ++ [LoggingError e])).
Proof.
  intros Hout Hget Hc Hrec.
  destruct (action_input_part_ok text Hc) as (part & Hpart).
  unfold action_input_record in Hrec. rewrite Hpart in Hrec.
  unfold enforce_question. unfold bind at 1. rewrite (read_response_run _ _ _ Hout).
  unfold bind at 1, lift at 1. rewrite Hget.
  unfold bind at 1, lift at 1. cbn [py_contains]. rewrite Hc.
  unfold bind at 1, lift at 1. rewrite Hpart.
  unfold try_except, modify_action_input.
  unfold bind at 1, lift at 1.
  destruct (json_loads G part) as [j|e].
  - exists TypeError. destruct j; try discriminate; reflexivity.
  - exists e. reflexivity.
Qed.

Lemma deepcopy_run (w : World X) l v :
  deref (heap w) l = Some v ->
  deepcopy l w = (Ok (copy_loc (heap w)), mkWorld (memory w) (copy_cells v (heap w)) (env w) (effects w))
  /\ deref (copy_cells v (heap w)) (copy_loc (heap w)) = Some v
  /\ deref (copy_cells v (heap w)) l = Some v.
Proof.
  intros Hv. split; [|split].
  - unfold deepcopy, bind. rewrite (read_response_run _ _ _ Hv). reflexivity.
  - apply (deref_alloc (heap w) v).
  - eapply deref_extends; [apply heap_extends_app|exact Hv].
Qed.

(** C5. When the marker is in the completion and the part after it is not
    a JSON object ([json.loads] raises, or gives something that is no
    dict), the copy-and-rewrite step returns and does not raise, logs one
    error and changes nothing else: the copy handed to the parsing of
    reasoning steps has the value of the response of the backend. *)
Theorem malformed_action_input_falls_back question (w : World X) l v text :
  deref (heap w) l = Some v ->
  raw_get_content (raw v) = Ok (PyStr text) ->
  str_contains "Action Input:" text = true ->
  action_input_record G text = None ->
  exists e,
    copy_and_enforce G question l w
    = (Ok (copy_loc (heap w)),
       mkWorld (memory w) (copy_cells v (heap w)) (env w) (effects w ++ [LoggingError e]))
    /\ deref (copy_cells v (heap w)) (copy_loc (heap w)) = Some v
    /\ deref (copy_cells v (heap w)) l = Some v.
Proof.
  intros Hv Hget Hc Hrec.
  destruct (deepcopy_run w l v Hv) as (Hcopy & Hd & Hl).
  destruct (enforce_question_falls_back question
              (mkWorld (memory w) (copy_cells v (heap w)) (env w) (effects w))
              (copy_loc (heap w)) v text Hd Hget Hc Hrec) as (e & He).
  exists e. split; [|split; assumption].
  unfold copy_and_enforce. unfold bind at 1. rewrite Hcopy.
  unfold bind, ret. rewrite He. reflexivity.
Qed.

(** C10. When the part after the marker parses as a JSON object that has
    no ["input"] key, the rewrite does not fail and logs nothing: the
    record it serialises is the parsed one with ["input"] added at the end,
    set to the template applied to the question, its other keys unchanged;
    the text with that record in place of the part is stored in both
    fields of the copy. *)
Theorem missing_input_key_is_added question (w : World X) l v text part d :
  deref (heap w) l = Some v ->
  raw_get_content (raw v) = Ok (PyStr text) ->
  str_contains "Action Input:" text = true ->
  action_input_part text = Ok part ->
  json_loads G part = Ok (PyDict d) ->
  dict_get "input" d = None ->
  let wrapped := PyStr (format_template (QUERY_ENGINE_PROMPT_FORMATTER G) question) in
  let record := d ++ [("input", wrapped)] in
  let new_text := str_replace part (json_dumps G (PyDict record)) text in
  exists h' r',
    copy_and_enforce G question l w
    = (Ok (copy_loc (heap w)), mkWorld (memory w) h' (env w) (effects w))
    /\ deref h' (copy_loc (heap w))
       = Some (mkChatResponse (mkChatMessage (role (message v)) (Some new_text)) r')
    /\ raw_get_content r' = Ok (PyStr new_text)
    /\ dict_get "input" record = Some wrapped
    /\ (forall k, k <> "input" -> dict_get k record = dict_get k d).
Proof.
  intros Hv Hget Hc Hpart Hloads Hnone wrapped record new_text.
  destruct (deepcopy_run w l v Hv) as (Hcopy & Hd & _).
  destruct (enforce_question_rewrites question
              (mkWorld (memory w) (copy_cells v (heap w)) (env w) (effects w))
              (copy_loc (heap w)) v text part d Hd Hget Hc Hpart Hloads)
    as (h' & r' & He & Hd' & Hr').
  assert (Hrec : dict_set "input" wrapped d = record) by (apply dict_set_absent, Hnone).
  unfold rewritten_content in Hd', Hr'. fold wrapped in Hd', Hr'.
  rewrite Hrec in Hd', Hr'.
  exists h', r'. split; [|split; [exact Hd'|split; [exact Hr'|split]]].
  - unfold copy_and_enforce. unfold bind at 1. rewrite Hcopy.
    unfold bind, ret. rewrite He. reflexivity.
  - rewrite <- Hrec. apply dict_get_set_eq.
  - intros k Hk. rewrite <- Hrec. apply dict_get_set_ne. congruence.
Qed.

(** X2. Without the marker the copy is left as it is and nothing is
    logged. *)
Lemma no_marker_no_rewrite question (w : World X) l v text :
  deref (heap w) l = Some v ->
  raw_get_content (raw v) = Ok (PyStr text) ->
  str_contains "Action Input:" text = false ->
  copy_and_enforce G question l w
  = (Ok (copy_loc (heap w)), mkWorld (memory w) (copy_cells v (heap w)) (env w) (effects w))
  /\ deref (copy_cells v (heap w)) (copy_loc (heap w)) = Some v.
Proof.
  intros Hv Hget Hc.
  destruct (deepcopy_run w l v Hv) as (Hcopy & Hd & _).
  split; [|exact Hd].
  unfold copy_and_enforce. unfold bind at 1. rewrite Hcopy.
  unfold bind at 1. unfold enforce_question.
  unfold bind at 1.
  rewrite (read_response_run
             (mkWorld (memory w) (copy_cells v (heap w)) (env w) (effects w)) _ _ Hd).
  unfold bind at 1, lift at 1. rewrite Hget.
  unfold bind at 1, lift at 1. cbn [py_contains]. rewrite Hc. reflexivity.
Qed.

Lemma replace_from_skip old new a post :
  replace_from old new (String.length a) (a +:+ post) = replace_from old new 0 post.
Proof.
  induction a as [|c a IH]; [reflexivity|]. simpl. exact IH.
Qed.

Lemma replace_from_no_occurrence old new s :
  str_contains old s = false -> replace_from old new 0 s = s.
Proof.
  induction s as [|c s IH]; [reflexivity|].
  rewrite str_contains_cons. intros H. apply orb_false_iff in H as [Hp Hc].
  cbn [replace_from]. rewrite Hp, (IH Hc). reflexivity.
Qed.

Lemma prefix_app old post : String.prefix old (old +:+ post) = true.
Proof.
  induction old as [|c old IH]; [destruct post; reflexivity|].
  simpl. destruct (ascii_dec c c); [exact IH|congruence].
Qed.

(** [replace] on a text in which [old] occurs once. *)
Lemma str_replace_once old new before after :
  old <> EmptyString ->
  (forall i, i < String.length before ->
     String.prefix old (str_drop i (before +:+ old +:+ after)) = false) ->
  str_contains old after = false ->
  str_replace old new (before +:+ old +:+ after) = before +:+ new +:+ after.
Proof.
  intros Hold Hbefore Hafter.
  assert (Hr : str_replace old new (before +:+ old +:+ after)
               = replace_from old new 0 (before +:+ old +:+ after))
    by (destruct old; [congruence|reflexivity]).
  rewrite Hr. clear Hr.
  induction before as [|c before IH].
  - destruct old as [|c0 old]; [congruence|].
    change (EmptyString +:+ String c0 old +:+ after) with (String c0 (old +:+ after)).
    cbn [replace_from].
    rewrite (prefix_app (String c0 old) after : String.prefix _ (String c0 (old +:+ after)) = true).
    replace (String.length (String c0 old) - 1) with (String.length old) by (simpl; lia).
    rewrite replace_from_skip, (replace_from_no_occurrence _ _ _ Hafter). reflexivity.
  - change (String c before +:+ old +:+ after) with (String c (before +:+ old +:+ after)) in *.
    cbn [replace_from].
    assert (H0 : String.prefix old (String c (before +:+ old +:+ after)) = false)
      by (apply (Hbefore 0); simpl; lia).
    rewrite H0, IH; [reflexivity|].
    intros i Hi. apply (Hbefore (S i)). simpl. lia.
Qed.

(** X4. When the part after the marker is a JSON object and occurs once in
    the completion, the rewrite puts the re-serialised record at the place
    of the part and leaves the text before and after it as it is; the
    record has its ["input"] set to the template applied to the question
    and its other keys unchanged. *)
Lemma rewrite_at_single_occurrence question (w : World X) l v before part after d :
  deref (heap w) l = Some v ->
  raw_get_content (raw v) = Ok (PyStr (before +:+ part +:+ after)) ->
  str_contains "Action Input:" (before +:+ part +:+ after) = true ->
  action_input_part (before +:+ part +:+ after) = Ok part ->
  json_loads G part = Ok (PyDict d) ->
  part <> EmptyString ->
  (forall i, i < String.length before ->
     String.prefix part (str_drop i (before +:+ part +:+ after)) = false) ->
  str_contains part after = false ->
  let wrapped := PyStr (format_template (QUERY_ENGINE_PROMPT_FORMATTER G) question) in
  let record := dict_set "input" wrapped d in
  let new_text := before +:+ json_dumps G (PyDict record) +:+ after in
  exists h' r',
    copy_and_enforce G question l w
    = (Ok (copy_loc (heap w)), mkWorld (memory w) h' (env w) (effects w))
    /\ deref h' (copy_loc (heap w))
       = Some (mkChatResponse (mkChatMessage (role (message v)) (Some new_text)) r')
    /\ raw_get_content r' = Ok (PyStr new_text)
    /\ dict_get "input" record = Some wrapped
    /\ (forall k, k <> "input" -> dict_get k record = dict_get k d).
Proof.
  intros Hv Hget Hc Hpart Hloads Hne Hbefore Hafter wrapped record new_text.
  destruct (deepcopy_run w l v Hv) as (Hcopy & Hd & _).
  destruct (enforce_question_rewrites question
              (mkWorld (memory w) (copy_cells v (heap w)) (env w) (effects w))
              (copy_loc (heap w)) v _ part d Hd Hget Hc Hpart Hloads)
    as (h' & r' & He & Hd' & Hr').
  unfold rewritten_content in Hd', Hr'. fold wrapped in Hd', Hr'. fold record in Hd', Hr'.
  rewrite (str_replace_once part _ before after Hne Hbefore Hafter) in Hd', Hr'.
  exists h', r'. split; [|split; [exact Hd'|split; [exact Hr'|split]]].
  - unfold copy_and_enforce. unfold bind at 1. rewrite Hcopy.
    unfold bind, ret. rewrite He. reflexivity.
  - apply dict_get_set_eq.
  - intros k Hk. apply dict_get_set_ne. congruence.
Qed.

(** X1. When every round ends without a final answer, [chat] hands the
    trace of all the rounds to [_get_response]: it returns its response,
    after putting it into memory, and raises what it raises. *)
Lemma chat_exhausted_delegates message0 history (w0 : World X) cur w :
  loop_reaches G self message0 (_max_iterations self) [] (chat_start G message0 history w0)
    0 cur w ->
  chat G self message0 history w0 =
  match _get_response self cur with
  | Ok r => (Ok r, chat_end r w)
  | Raise e => (Raise e, w)
  end.
Proof.
  intros Hreach. rewrite chat_run, (loop_reaches_run _ _ _ _ _ _ _ Hreach). reflexivity.
Qed.

(** ** Chat memory and the prompts *)

Lemma keeps_memory_bind {A B} (m : M X A) (k : A -> M X B) :
  keeps_memory m -> (forall a, keeps_memory (k a)) -> keeps_memory (bind m k).
Proof.
  intros Hm Hk w. unfold bind. specialize (Hm w).
  destruct (m w) as [[a|e] w1]; simpl in *; [|exact Hm].
  rewrite Hk. exact Hm.
Qed.

Lemma keeps_memory_try {A} (m : M X A) (h : PyExc -> M X A) :
  keeps_memory m -> (forall e, keeps_memory (h e)) -> keeps_memory (try_except m h).
Proof.
  intros Hm Hh w. unfold try_except. specialize (Hm w).
  destruct (m w) as [[a|e] w1]; simpl in *; [exact Hm|].
  rewrite Hh. exact Hm.
Qed.

Lemma keeps_memory_plain {A} (m : M X A) :
  (forall w, memory (m w).2 = memory w) -> keeps_memory m.
Proof. intros H. exact H. Qed.

Lemma keeps_memory_read_response l : keeps_memory (X:=X) (read_response l).
Proof. intros w. unfold read_response. destruct (deref (heap w) l); reflexivity. Qed.

Lemma keeps_memory_write_raw_content l v : keeps_memory (X:=X) (write_raw_content l v).
Proof.
  intros w. unfold write_raw_content. repeat (case_match; simpl; try reflexivity).
Qed.

Lemma keeps_memory_write_message_content l t :
  keeps_memory (X:=X) (write_message_content l t).
Proof.
  intros w. unfold write_message_content. repeat (case_match; simpl; try reflexivity).
Qed.

Lemma keeps_memory_tool_call (t : Tool X) i : keeps_memory (tool_call t i).
Proof. intros w. unfold tool_call. destruct (call t i (env w)); reflexivity. Qed.

Lemma keeps_memory_copy_and_enforce message l :
  keeps_memory (copy_and_enforce (X:=X) G message l).
Proof.
  unfold copy_and_enforce, deepcopy.
  apply keeps_memory_bind.
  { apply keeps_memory_bind; [apply keeps_memory_read_response|intros v w; reflexivity]. }
  intros c. apply keeps_memory_bind; [|intros _ w; reflexivity].
  unfold enforce_question.
  apply keeps_memory_bind; [apply keeps_memory_read_response|intros v].
  apply keeps_memory_bind; [intros w; reflexivity|intros rc].
  apply keeps_memory_bind; [intros w; reflexivity|intros [|]]; [|intros w; reflexivity].
  destruct rc; try (intros w; reflexivity).
  apply keeps_memory_bind; [intros w; reflexivity|intros part].
  apply keeps_memory_try; [|intros e w; reflexivity].
  unfold modify_action_input.
  apply keeps_memory_bind; [intros w; reflexivity|intros j].
  apply keeps_memory_bind; [intros w; reflexivity|intros j'].
  apply keeps_memory_bind; [apply keeps_memory_write_raw_content|intros _].
  apply keeps_memory_write_message_content.
Qed.

Lemma keeps_memory_process_actions output : keeps_memory (_process_actions self output).
Proof.
  unfold _process_actions.
  apply keeps_memory_bind; [apply keeps_memory_read_response|intros v].
  apply keeps_memory_bind; [intros w; reflexivity|intros [[t steps] [|]]];
    [intros w; reflexivity|].
  apply keeps_memory_bind; [intros w; reflexivity|intros st].
  apply keeps_memory_bind; [intros w; reflexivity|intros a].
  apply keeps_memory_bind; [intros w; reflexivity|intros tool].
  apply keeps_memory_bind; [intros w; reflexivity|intros inp].
  apply keeps_memory_bind; [intros w; reflexivity|intros _].
  apply keeps_memory_bind; [apply keeps_memory_tool_call|intros out].
  apply keeps_memory_bind; [intros w; reflexivity|intros _].
  intros w. reflexivity.
Qed.

Lemma keeps_memory_prepare_output message cur :
  keeps_memory (prepare_output G self message cur).
Proof.
  intros w. rewrite prepare_output_run. cbn zeta.
  destruct (_llm self _ (env w)) as [[v|e] x]; [|reflexivity].
  rewrite keeps_memory_copy_and_enforce. reflexivity.
Qed.

Lemma keeps_memory_chat_round message cur : keeps_memory (chat_round G self message cur).
Proof.
  unfold chat_round.
  apply keeps_memory_bind; [apply keeps_memory_prepare_output|intros c].
  apply keeps_memory_bind; [apply keeps_memory_process_actions|intros [steps done]].
  intros w. reflexivity.
Qed.

Lemma keeps_memory_chat_loop message n : forall cur,
  keeps_memory (chat_loop G self message n cur).
Proof.
  induction n as [|n IH]; intros cur; [intros w; reflexivity|].
  cbn [chat_loop].
  apply keeps_memory_bind; [apply keeps_memory_chat_round|intros [cur1 [|]]].
  - intros w. reflexivity.
  - apply IH.
Qed.

(** X5. The memory after a call of [chat]: the history given (or, with
    none, the memory as it was), then the user message with the router
    text, then the assistant message with the response when [chat]
    returns; the rounds of the loop write nothing into memory. *)
Theorem chat_memory_after message0 history (w : World X) :
  memory (chat G self message0 history w).2
  = match history with Some h => h | None => memory w end
    ++ user_message G message0
       :: match (chat G self message0 history w).1 with
          | Ok r => [assistant_message r]
          | Raise _ => []
          end.
Proof.
  rewrite chat_run.
  pose proof (keeps_memory_chat_loop message0 (_max_iterations self) []
                (chat_start G message0 history w)) as Hm.
  destruct (chat_loop G self message0 (_max_iterations self) [] _) as [[cur|e] w1];
    cbn [fst snd] in *.
  - destruct (_get_response self cur) as [r|e]; cbn [fst snd chat_end memory].
    + rewrite Hm. cbn [chat_start memory]. rewrite <- app_assoc. reflexivity.
    + rewrite Hm. reflexivity.
  - rewrite Hm. reflexivity.
Qed.




(** ** What else escapes [chat], and what ends a turn *)

(** X7. An exception of the backend in some round is the exception of
    [chat]: the round has read the memory and sent the prompt, and nothing
    more happens. *)
Theorem backend_failure_escapes_chat message0 history (w0 : World X) n cur w e x :
  loop_reaches G self message0 (_max_iterations self) [] (chat_start G message0 history w0)
    (S n) cur w ->
  _llm self (_react_chat_formatter self (memory w) cur) (env w) = (Raise e, x) ->
  chat G self message0 history w0
  = (Raise e,
     mkWorld (memory w) (heap w) x
       (effects w ++ [MemoryGet; LlmChat (_react_chat_formatter self (memory w) cur)])).
Proof.
  intros Hreach Hllm.
  eapply chat_raises_with_round; [exact Hreach|].
  rewrite chat_round_run, prepare_output_run. cbn zeta. rewrite Hllm. reflexivity.
Qed.

Lemma copy_and_enforce_marker_test_raises question (w : World X) l v e :
  deref (heap w) l = Some v ->
  marker_test v = Raise e ->
  copy_and_enforce G question l w
  = (Raise e, mkWorld (memory w) (copy_cells v (heap w)) (env w) (effects w)).
Proof.
  intros Hv Ht.
  destruct (deepcopy_run w l v Hv) as (Hcopy & Hd & _).
  unfold copy_and_enforce. unfold bind at 1. rewrite Hcopy.
  unfold bind at 1. unfold enforce_question.
  unfold bind at 1.
  rewrite (read_response_run
             (mkWorld (memory w) (copy_cells v (heap w)) (env w) (effects w)) _ _ Hd).
  unfold marker_test in Ht.
  unfold bind at 1, lift at 1.
  destruct (raw_get_content (raw v)) as [rc|e']; [|injection Ht as ->; reflexivity].
  unfold bind at 1, lift at 1. rewrite Ht. reflexivity.
Qed.

(** X8. The read of [raw['choices'][0]['message']['content']] and the test
    for the marker stand before the [try] block: when the payload of the
    response has no such entry, or the content is no text or container
    (it is [None], say), the error is not caught and [chat] raises it. *)
Theorem unreadable_content_escapes_chat message0 history (w0 : World X) n cur w v x e :
  loop_reaches G self message0 (_max_iterations self) [] (chat_start G message0 history w0)
    (S n) cur w ->
  _llm self (_react_chat_formatter self (memory w) cur) (env w) = (Ok v, x) ->
  marker_test v = Raise e ->
  chat G self message0 history w0
  = (Raise e,
     mkWorld (memory w) (copy_cells v (copy_cells v (heap w))) x
       (effects w ++ [MemoryGet; LlmChat (_react_chat_formatter self (memory w) cur);
                      LlmReturned (copy_loc (heap w)) v])).
Proof.
  intros Hreach Hllm Ht.
  eapply chat_raises_with_round; [exact Hreach|].
  rewrite chat_round_run, prepare_output_run. cbn zeta. rewrite Hllm.
  rewrite (copy_and_enforce_marker_test_raises message0 _ _ v e);
    [reflexivity|apply deref_alloc|exact Ht].
Qed.

(** X9. When the inherited parser raises on the completion of some round,
    nothing catches it: [chat] raises the same exception, in the state the
    round had reached. *)
Theorem parse_failure_escapes_chat message0 history (w0 : World X)
    n cur w c w1 out e :
  loop_reaches G self message0 (_max_iterations self) [] (chat_start G message0 history w0)
    (S n) cur w ->
  prepare_output G self message0 cur w = (Ok c, w1) ->
  deref (heap w1) c = Some out ->
  _extract_reasoning_step self out = Raise e ->
  chat G self message0 history w0 = (Raise e, w1).
Proof.
  intros Hreach Hp Hout Hparse.
  eapply chat_raises_with_round; [exact Hreach|].
  eapply chat_round_raises; [exact Hp|].
  unfold _process_actions. unfold bind at 1. rewrite (read_response_run _ _ _ Hout).
  unfold bind, lift. rewrite Hparse. reflexivity.
Qed.

(** X10. The round whose parsed step ends the turn calls no tool and emits
    no event, and no later round runs, whatever the budget left: [chat]
    gives the trace with the parsed steps at its end to [_get_response]. *)
Theorem final_answer_ends_turn message0 history (w0 : World X)
    n cur w c w1 out text steps :
  loop_reaches G self message0 (_max_iterations self) [] (chat_start G message0 history w0)
    (S n) cur w ->
  prepare_output G self message0 cur w = (Ok c, w1) ->
  deref (heap w1) c = Some out ->
  _extract_reasoning_step self out = Ok (text, steps, true) ->
  chat G self message0 history w0
  = match _get_response self (cur ++ steps) with
    | Ok r => (Ok r, chat_end r w1)
    | Raise e => (Raise e, w1)
    end.
Proof.
  intros Hreach Hp Hout Hparse.
  assert (Hround : chat_round G self message0 cur w = (Ok (cur ++ steps, true), w1)).
  { rewrite chat_round_run, Hp.
    unfold _process_actions. unfold bind at 1. rewrite (read_response_run _ _ _ Hout).
    unfold bind, lift, ret. rewrite Hparse. reflexivity. }
  rewrite chat_run, (loop_reaches_run _ _ _ _ _ _ _ Hreach).
  cbn [chat_loop]. unfold bind. rewrite Hround. reflexivity.
Qed.

(** X11. A dispatch that succeeds appends one observation, the text of the
    output of the registered tool that the last parsed step names, called
    with the input of that step; it emits the two events of the call, the
    second with the same text, and the round goes on to the next. *)
Theorem dispatch_appends_tool_output message0 cur (w : World X)
    c w1 out text steps thought action action_input tool o x :
  prepare_output G self message0 cur w = (Ok c, w1) ->
  deref (heap w1) c = Some out ->
  _extract_reasoning_step self out = Ok (text, steps, false) ->
  last steps = Some (ActionReasoningStep thought action action_input) ->
  _tools_dict self !! action = Some tool ->
  call tool action_input (env w1) = (Ok o, x) ->
  chat_round G self message0 cur w
  = (Ok (cur ++ steps ++ [ObservationReasoningStep o], false),
     mkWorld (memory w1) (heap w1) x
       (effects w1 ++ [EventStart action_input (metadata tool); EventEnd o])).
Proof.
  intros Hp Hout Hparse Hlast Htool Hcall.
  rewrite chat_round_run, Hp.
  unfold _process_actions. unfold bind at 1. rewrite (read_response_run _ _ _ Hout).
  unfold bind at 1. unfold lift at 1. rewrite Hparse.
  cbn beta iota. unfold bind at 1, lift at 1, list_last_item. rewrite Hlast.
  unfold bind at 1, lift at 1. cbn [step_action].
  unfold bind at 1, lift at 1, tools_getitem. rewrite Htool.
  unfold bind at 1, lift at 1. cbn [step_action_input].
  unfold bind at 1, emit at 1.
  unfold bind at 1, tool_call at 1. cbn [env heap memory effects].
  rewrite Hcall. unfold bind, emit, ret. cbn [env heap memory effects].
  rewrite <- app_assoc. reflexivity.
Qed.

(** ** Observations, events and calls of a turn *)

Lemma event_outputs_app (d1 d2 : list Effect) :
  event_outputs (d1 ++ d2) = event_outputs d1 ++ event_outputs d2.
Proof.
  induction d1 as [|e d1 IH]; [reflexivity|].
  destruct e; simpl; rewrite IH; reflexivity.
Qed.

Lemma observations_app (t1 t2 : list ReasoningStep) :
  observations (t1 ++ t2) = observations t1 ++ observations t2.
Proof.
  induction t1 as [|st t1 IH]; [reflexivity|].
  destruct st; simpl; rewrite IH; reflexivity.
Qed.

Lemma parsed_steps_app (t1 t2 : list ReasoningStep) :
  parsed_steps (t1 ++ t2) = parsed_steps t1 + parsed_steps t2.
Proof.
  induction t1 as [|st t1 IH]; [reflexivity|].
  destruct st; simpl; rewrite IH; reflexivity.
Qed.

Lemma quiet_counts (d : list Effect) :
  forallb quiet d = true -> llm_calls d = 0 /\ event_outputs d = [].
Proof.
  induction d as [|e d IH]; [auto|].
  destruct e; simpl; intros H; try discriminate; auto.
Qed.

Lemma prepare_output_quiet message0 cur (w : World X) :
  exists d, effects (prepare_output G self message0 cur w).2
            = effects w ++ MemoryGet :: LlmChat (_react_chat_formatter self (memory w) cur) :: d
            /\ forallb quiet d = true.
Proof.
  rewrite prepare_output_run. cbn zeta.
  destruct (_llm self _ (env w)) as [[v|e] x].
  - match goal with |- context [copy_and_enforce G message0 ?l ?w1] =>
      destruct (copy_and_enforce_adds quiet message0 l) with (w := w1) as (d & E & F);
      [reflexivity|]
    end.
    exists (LlmReturned (alloc_response (heap w) v).1 v :: d).
    rewrite E. cbn [effects]. rewrite <- app_assoc. split; [reflexivity|]. exact F.
  - exists []. split; reflexivity.
Qed.

(** What a dispatch that returns adds, under the contract of the parser:
    one parsed step, and for each observation the event that reports it. *)
Lemma process_actions_account (w : World X) output steps (is_done : bool) w' :
  parser_contract self ->
  _process_actions self output w = (Ok (steps, is_done), w') ->
  exists d, effects w' = effects w ++ d
            /\ llm_calls d = 0
            /\ event_outputs d = observations steps
            /\ parsed_steps steps = 1.
Proof.
  intros Hparser. unfold _process_actions.
  unfold bind at 1. pose proof (read_response_silent output w) as Hr.
  destruct (read_response output w) as [[out|e] w0]; [|discriminate]. cbn [snd] in Hr.
  unfold bind at 1, lift at 1.
  destruct (_extract_reasoning_step self out) as [[[text steps0] done]|e] eqn:Hparse; [|discriminate].
  destruct (Hparser _ _ _ _ Hparse) as (st & -> & Hfinal).
  destruct done.
  - unfold ret. intros [= <- <- <-]. exists []. rewrite app_nil_r.
    destruct st; try (specialize (Hfinal eq_refl); discriminate). auto.
  - cbn beta iota. unfold bind at 1, lift at 1. cbn [list_last_item last].
    destruct st as [th a inp|o|th r]; cbn [step_action];
      unfold bind at 1, lift at 1; try discriminate.
    unfold bind at 1, lift at 1. destruct (tools_getitem self a) as [tool|e]; [|discriminate].
    unfold bind at 1, lift at 1. cbn [step_action_input].
    unfold bind at 1, emit at 1.
    unfold bind at 1.
    match goal with |- context [tool_call tool inp ?w1] =>
      pose proof (tool_call_silent tool inp w1) as Ht;
      destruct (tool_call tool inp w1) as [[obs|e] w2]; [|discriminate]
    end.
    cbn [snd effects] in Ht.
    unfold bind, emit, ret. intros [= <- <- <-]. cbn [effects].
    exists [EventStart inp (metadata tool); EventEnd obs].
    rewrite Ht, Hr, <- app_assoc. auto.
Qed.

Lemma chat_round_account message0 cur (w : World X) cur' (is_done : bool) w' :
  parser_contract self ->
  chat_round G self message0 cur w = (Ok (cur', is_done), w') ->
  exists d more, effects w' = effects w ++ d
                 /\ cur' = cur ++ more
                 /\ llm_calls d = 1
                 /\ event_outputs d = observations more
                 /\ parsed_steps more = 1.
Proof.
  intros Hparser. rewrite chat_round_run.
  destruct (prepare_output_quiet message0 cur w) as (d1 & E1 & F1).
  destruct (prepare_output G self message0 cur w) as [[c|e] w1]; [|discriminate].
  cbn [snd] in E1.
  destruct (_process_actions self c w1) as [[[steps done]|e] w2] eqn:Ha; [|discriminate].
  intros [= <- <- <-].
  destruct (process_actions_account _ _ _ _ _ Hparser Ha) as (d2 & E2 & C2 & O2 & P2).
  destruct (quiet_counts _ F1) as [C1 O1].
  eexists _, steps. split; [rewrite E2, E1, <- app_assoc; reflexivity|].
  split; [reflexivity|].
  cbn [app llm_calls event_outputs].
  rewrite llm_calls_app, event_outputs_app, C1, C2, O1, O2. auto.
Qed.

Lemma chat_loop_account message0 n :
  parser_contract self ->
  forall cur (w : World X) trace w',
    chat_loop G self message0 n cur w = (Ok trace, w') ->
    exists d more, effects w' = effects w ++ d
                   /\ trace = cur ++ more
                   /\ llm_calls d = parsed_steps more
                   /\ event_outputs d = observations more.
Proof.
  intros Hparser. induction n as [|n IH]; intros cur w trace w'.
  - simpl. unfold ret. intros [= <- <-]. exists [], []. rewrite !app_nil_r. auto.
  - simpl. unfold bind.
    destruct (chat_round G self message0 cur w) as [[[cur1 done]|e] w1] eqn:Hround; [|discriminate].
    destruct (chat_round_account _ _ _ _ _ _ Hparser Hround) as (d1 & m1 & E1 & -> & C1 & O1 & P1).
    destruct done.
    + unfold ret. intros [= <- <-]. exists d1, m1. rewrite C1, P1. auto.
    + intros Hloop. destruct (IH _ _ _ _ Hloop) as (d2 & m2 & E2 & -> & C2 & O2).
      exists (d1 ++ d2), (m1 ++ m2).
      rewrite E2, E1, !app_assoc, llm_calls_app, event_outputs_app,
        parsed_steps_app, observations_app, C1, C2, O1, O2, P1. auto.
Qed.

(** X12. Under the contract of the parser, the observations of the trace
    of a turn are, in order, the outputs that the events closing the tool
    calls of that turn report: each observation comes from one tool call
    and each completed tool call gives one observation. *)
Theorem observations_are_tool_outputs message0 (w : World X) trace w' :
  parser_contract self ->
  chat_loop G self message0 (_max_iterations self) [] w = (Ok trace, w') ->
  exists d, effects w' = effects w ++ d /\ observations trace = event_outputs d.
Proof.
  intros Hparser Hloop.
  destruct (chat_loop_account _ _ Hparser _ _ _ _ Hloop) as (d & more & E & -> & _ & O).
  exists d. split; [exact E|]. symmetry. exact O.
Qed.

(** X13. Under the contract of the parser, a turn calls the backend once
    for each action and each final answer of its trace, and no more. *)
Theorem one_backend_call_per_parsed_step message0 (w : World X) trace w' :
  parser_contract self ->
  chat_loop G self message0 (_max_iterations self) [] w = (Ok trace, w') ->
  exists d, effects w' = effects w ++ d /\ llm_calls d = parsed_steps trace.
Proof.
  intros Hparser Hloop.
  destruct (chat_loop_account _ _ Hparser _ _ _ _ Hloop) as (d & more & E & -> & C & _).
  exists d. split; [exact E|exact C].
Qed.

(** ** The part after the marker *)

Lemma append_empty_r s : s +:+ EmptyString = s.
Proof.
  induction s as [|c s IH]; [reflexivity|].
  change (String c (s +:+ EmptyString) = String c s). f_equal. exact IH.
Qed.

Lemma append_snoc_assoc s c t : (s +:+ String c EmptyString) +:+ t = s +:+ String c t.
Proof.
  induction s as [|c' s IH]; [reflexivity|].
  change (String c' ((s +:+ String c EmptyString) +:+ t) = String c' (s +:+ String c t)).
  f_equal. exact IH.
Qed.

Lemma split_from_skip sep a cur rest :
  split_from sep (String.length a) cur (a +:+ rest) = split_from sep 0 cur rest.
Proof. induction a as [|c a IH]; [reflexivity|]. simpl. exact IH. Qed.

Lemma split_from_none sep s : forall cur,
  str_contains sep s = false -> split_from sep 0 cur s = [cur +:+ s].
Proof.
  induction s as [|c s IH]; intros cur.
  - intros _. simpl. rewrite append_empty_r. reflexivity.
  - rewrite str_contains_cons. intros H. apply orb_false_iff in H as [Hp Hc].
    cbn [split_from]. rewrite Hp, (IH _ Hc), append_snoc_assoc. reflexivity.
Qed.

Lemma split_from_first sep pre rest :
  sep <> EmptyString -> forall cur,
  no_match_before sep (pre +:+ sep +:+ rest) (String.length pre) ->
  split_from sep 0 cur (pre +:+ sep +:+ rest) = (cur +:+ pre) :: split_from sep 0 EmptyString rest.
Proof.
  intros Hsep. induction pre as [|c pre IH]; intros cur Hfirst.
  - destruct sep as [|c0 sep]; [congruence|].
    change (EmptyString +:+ String c0 sep +:+ rest) with (String c0 (sep +:+ rest)).
    cbn [split_from].
    rewrite (prefix_app (String c0 sep) rest : String.prefix _ (String c0 (sep +:+ rest)) = true).
    replace (String.length (String c0 sep) - 1) with (String.length sep) by (simpl; lia).
    rewrite split_from_skip, append_empty_r. reflexivity.
  - change (String c pre +:+ sep +:+ rest) with (String c (pre +:+ sep +:+ rest)) in *.
    cbn [split_from].
    assert (H0 : String.prefix sep (String c (pre +:+ sep +:+ rest)) = false)
      by (apply (Hfirst 0); simpl; lia).
    rewrite H0, IH, append_snoc_assoc; [reflexivity|].
    intros i Hi. apply (Hfirst (S i)). simpl. lia.
Qed.

(** X14. When the marker occurs first after [pre] and not again, the part
    the rewrite works on is all the text after the marker, to the end of
    the completion, without the blanks around it. *)
Theorem action_input_part_to_end pre rest :
  no_match_before "Action Input:" (pre +:+ "Action Input:" +:+ rest) (String.length pre) ->
  str_contains "Action Input:" rest = false ->
  action_input_part (pre +:+ "Action Input:" +:+ rest) = Ok (str_strip rest).
Proof.
  intros Hfirst Hrest. unfold action_input_part, str_split.
  rewrite split_from_first by (discriminate || exact Hfirst).
  rewrite (split_from_none _ _ _ Hrest). reflexivity.
Qed.

(** X15. When the marker occurs a second time, the part is the text
    between the first two markers only: what follows the second marker is
    not looked at. *)
Theorem action_input_part_to_next_marker pre mid rest :
  no_match_before "Action Input:"
    (pre +:+ "Action Input:" +:+ mid +:+ "Action Input:" +:+ rest) (String.length pre) ->
  no_match_before "Action Input:" (mid +:+ "Action Input:" +:+ rest) (String.length mid) ->
  action_input_part (pre +:+ "Action Input:" +:+ mid +:+ "Action Input:" +:+ rest)
  = Ok (str_strip mid).
Proof.
  intros Hfirst Hsecond. unfold action_input_part, str_split.
  rewrite split_from_first by (discriminate || exact Hfirst).
  rewrite split_from_first by (discriminate || exact Hsecond).
  reflexivity.
Qed.

End Properties.






(** * Properties of [index.py] and [main.py] *)

Section IndexProperties.

(** ** The model name in the name of a persisted index *)

Lemma append_assoc (s t u : string) : (s +:+ t) +:+ u = s +:+ (t +:+ u).
Proof.
  induction s as [|c s IH]; [reflexivity|].
  change (String c ((s +:+ t) +:+ u) = String c (s +:+ (t +:+ u))). f_equal. exact IH.
Qed.

Lemma last_cons_nonempty {A} (x : A) (l : list A) : l <> [] -> last (x :: l) = last l.
Proof. destruct l; [congruence|reflexivity]. Qed.

(** The last piece of a split is an end of the text. *)
Lemma split_from_last_suffix sep s :
  (forall k p, last (split_from sep k EmptyString s) = Some p -> exists pre, s = pre +:+ p)
  /\ (forall cur p, last (split_from sep 0 cur s) = Some p -> exists pre, cur +:+ s = pre +:+ p).
Proof.
  induction s as [|c s [IH1 IH2]].
  - split.
    + intros k p. destruct k; simpl; intros [= <-]; exists EmptyString; reflexivity.
    + intros cur p. simpl. intros [= <-]. exists EmptyString. apply append_empty_r.
  - assert (H2 : forall cur p, last (split_from sep 0 cur (String c s)) = Some p ->
                   exists pre, cur +:+ String c s = pre +:+ p).
    { intros cur p. cbn [split_from].
      destruct (String.prefix sep (String c s)).
      - rewrite last_cons_nonempty by apply split_from_nonempty.
        intros H. destruct (IH1 _ _ H) as (pre & ->).
        exists (cur +:+ String c pre). rewrite append_assoc. reflexivity.
      - intros H. destruct (IH2 _ _ H) as (pre & Hpre).
        exists pre. rewrite <- Hpre, append_snoc_assoc. reflexivity. }
    split; [|exact H2].
    intros [|k] p.
    + intros H. destruct (H2 _ _ H) as (pre & Hpre). exists pre. exact Hpre.
    + cbn [split_from]. intros H. destruct (IH1 _ _ H) as (pre & ->).
      exists (String c pre). reflexivity.
Qed.

Lemma prefix_empty s : String.prefix EmptyString s = true.
Proof. destruct s; reflexivity. Qed.

Lemma prefix_char c0 c s :
  String.prefix (String c0 EmptyString) (String c s) = Ascii.eqb c0 c.
Proof.
  simpl. destruct (ascii_dec c0 c) as [->|Hne].
  - rewrite prefix_empty, Ascii.eqb_refl. reflexivity.
  - symmetry. apply Ascii.eqb_neq. exact Hne.
Qed.

Lemma str_contains_char_snoc c0 cur c :
  str_contains (String c0 EmptyString) (cur +:+ String c EmptyString)
  = str_contains (String c0 EmptyString) cur || Ascii.eqb c0 c.
Proof.
  induction cur as [|a cur IH].
  - change (EmptyString +:+ String c EmptyString) with (String c EmptyString).
    rewrite str_contains_cons, prefix_char. simpl. destruct (Ascii.eqb c0 c); reflexivity.
  - change (String a cur +:+ String c EmptyString) with (String a (cur +:+ String c EmptyString)).
    rewrite !str_contains_cons, !prefix_char, IH. rewrite orb_assoc. reflexivity.
Qed.

(** No piece of a split at a one-character separator holds the separator. *)
Lemma split_from_char_pieces c0 s : forall k cur p,
  str_contains (String c0 EmptyString) cur = false ->
  In p (split_from (String c0 EmptyString) k cur s) ->
  str_contains (String c0 EmptyString) p = false.
Proof.
  induction s as [|c s IH]; intros k cur p Hcur.
  - simpl. intros [<-|[]]. exact Hcur.
  - cbn [split_from]. destruct k as [|k]; [|apply IH; exact Hcur].
    rewrite prefix_char. destruct (Ascii.eqb c0 c) eqn:Ec.
    + intros [<-|Hin]; [exact Hcur|]. eapply IH; [|exact Hin]. reflexivity.
    + apply IH. rewrite str_contains_char_snoc, Hcur, Ec. reflexivity.
Qed.

Lemma last_In {A} (l : list A) x : last l = Some x -> In x l.
Proof.
  induction l as [|y l IH]; [discriminate|].
  destruct l as [|z l]; [intros [= <-]; left; reflexivity|].
  intros H. right. apply IH. exact H.
Qed.

(** X16. [persist_index] and [initialise_chatbot] shorten a model name in
    the same way, for every name: both get the text after the last slash
    (the whole name when it has none). That text is an end of the name,
    has no slash in it, and is left as it is when shortened again, so the
    name component of a persisted directory compares equal to the one
    [main.py] computes. *)
Theorem model_name_shortened_alike name :
  exists short,
    model_name_in_persist name = Ok short
    /\ model_name_in_main name = Ok short
    /\ (exists pre, name = pre +:+ short)
    /\ str_contains "/" short = false
    /\ model_name_in_persist short = Ok short.
Proof.
  unfold model_name_in_persist, model_name_in_main, list_last_item, str_split.
  destruct (last (split_from "/" 0 EmptyString name)) as [short|] eqn:Hlast.
  2: { exfalso. pose proof (split_from_nonempty "/" name 0 EmptyString) as Hne.
       destruct (split_from "/" 0 EmptyString name); [congruence|].
       clear Hne. revert s Hlast. induction l as [|y l IH]; intros x; [discriminate|].
       apply IH. }
  assert (Hshort : str_contains "/" short = false).
  { eapply (split_from_char_pieces "/"%char name 0 EmptyString); [reflexivity|].
    apply last_In. exact Hlast. }
  exists short.
  destruct (str_contains "/" name) eqn:Hc.
  - split; [reflexivity|]. split; [reflexivity|]. split.
    + destruct (split_from_last_suffix "/" name) as [H1 _]. apply (H1 0). exact Hlast.
    + split; [exact Hshort|]. rewrite Hshort. reflexivity.
  - rewrite (split_from_none "/" name EmptyString Hc) in Hlast.
    injection Hlast as <-. change (EmptyString +:+ name) with name.
    split; [reflexivity|]. split; [reflexivity|]. split; [exists EmptyString; reflexivity|].
    split; [exact Hc|]. rewrite Hc. reflexivity.
Qed.

(** ** [load_index_from_disk] *)

Context {S I : Type} (E : IndexEnv S I).

(** X17. With an empty directory of indexes, [load_index_from_disk] raises
    [IndexError] at its first line, before the [try]: nothing is logged and
    the vector store is not asked. *)
Theorem load_index_empty_directory (s : S) :
  listdir E s = Ok [] ->
  load_index_from_disk E s = (Raises IndexError, s, []).
Proof.
  intros H. unfold load_index_from_disk, latest_persist_dir. rewrite H. reflexivity.
Qed.

(** X18. A failure of the vector store never leaves [load_index_from_disk]
    as an exception: when the call raises, the exception comes from the
    listing of the directory, from the empty listing, or from the writing
    of the stub file after a first failure that has the marker in its
    text. *)
Theorem load_index_raises_only s e s' log :
  load_index_from_disk E s = (Raises e, s', log) ->
  listdir E s = Raise e
  \/ (listdir E s = Ok [] /\ e = IndexError)
  \/ (exists persist_dir e1 s1,
        latest_persist_dir E s = Ok persist_dir
        /\ load_from_vector_store E s = (Raise e1, s1)
        /\ str_contains "No existing llama_index.vector_stores.simple" (exc_str E e1) = true
        /\ (write_stub E (persist_dir +:+ "/vector_store.json") s1).1 = Raise e).
Proof.
  unfold load_index_from_disk, latest_persist_dir.
  destruct (listdir E s) as [names|e0] eqn:Hl.
  - unfold list_last_item.
    destruct (last (py_sorted names)) as [latest|] eqn:Hlast.
    + destruct (load_from_vector_store E s) as [[index|e1] s1]; [discriminate|].
      destruct (str_contains _ (exc_str E e1)) eqn:Hm; [|discriminate].
      destruct (write_stub E _ s1) as [[u|e2] s2] eqn:Hw.
      * destruct (load_from_vector_store E s2) as [[index|e3] s3]; discriminate.
      * intros [= <- <- <-]. right. right. eexists _, e1, s1.
        split; [reflexivity|]. split; [reflexivity|]. split; [exact Hm|].
        rewrite Hw. reflexivity.
    + intros [= <- <- <-]. right. left. split; [|reflexivity].
      destruct names as [|n names]; [reflexivity|].
      exfalso. clear Hl. simpl in Hlast.
      assert (Hne : forall x l, insert_sorted x l <> []).
      { intros x l. destruct l; simpl; [congruence|]. destruct (String.leb x s0); congruence. }
      specialize (Hne n (py_sorted names)).
      destruct (insert_sorted n (py_sorted names)) as [|y l]; [congruence|].
      clear Hne. revert y Hlast. induction l as [|z l IH]; intros y; [discriminate|]. apply IH.
  - intros [= <- <- <-]. left. reflexivity.
Qed.

(** X19. When the loading from the vector store fails with an error whose
    text lacks the marker of the missing store file, [load_index_from_disk]
    logs the error and returns [None]: it does not raise, does not exit,
    writes no file and does not try again. *)
Theorem load_index_returns_none s persist_dir e s1 :
  latest_persist_dir E s = Ok persist_dir ->
  load_from_vector_store E s = (Raise e, s1) ->
  str_contains "No existing llama_index.vector_stores.simple" (exc_str E e) = false ->
  load_index_from_disk E s
  = (Returns None, s1,
     [LogInfo ("LOADING INDEX " +:+ persist_dir +:+ " FROM DISK"); LogError e]).
Proof.
  intros Hd Hl Hm. unfold load_index_from_disk. rewrite Hd, Hl, Hm. reflexivity.
Qed.

(** ** The directory that is picked *)

Lemma compare_refl s : String.compare s s = Eq.
Proof.
  induction s as [|c s IH]; [reflexivity|].
  simpl. unfold Ascii.compare. rewrite N.compare_refl. exact IH.
Qed.

Lemma leb_refl s : String.leb s s = true.
Proof. unfold String.leb. rewrite compare_refl. reflexivity. Qed.

Lemma leb_trans s1 : forall s2 s3,
  String.leb s1 s2 = true -> String.leb s2 s3 = true -> String.leb s1 s3 = true.
Proof.
  unfold String.leb.
  induction s1 as [|a s1 IH]; intros [|b s2] [|c s3]; simpl; try (reflexivity || discriminate).
  unfold Ascii.compare.
  destruct (N.compare_spec (N_of_ascii a) (N_of_ascii b)) as [Hab|Hab|Hab];
    destruct (N.compare_spec (N_of_ascii b) (N_of_ascii c)) as [Hbc|Hbc|Hbc];
    destruct (N.compare_spec (N_of_ascii a) (N_of_ascii c)) as [Hac|Hac|Hac];
    try lia; try (reflexivity || discriminate); auto.
  apply IH.
Qed.

Lemma insert_sorted_In x y l : In x (insert_sorted y l) <-> x = y \/ In x l.
Proof.
  induction l as [|z l IH]; simpl; [intuition|].
  destruct (String.leb y z); simpl; [intuition|].
  rewrite IH. intuition.
Qed.

Lemma py_sorted_In x l : In x (py_sorted l) <-> In x l.
Proof.
  induction l as [|y l IH]; simpl; [reflexivity|].
  rewrite insert_sorted_In, IH. intuition.
Qed.

Lemma insert_sorted_sorted x l :
  StronglySorted (fun a b => String.leb a b = true) l ->
  StronglySorted (fun a b => String.leb a b = true) (insert_sorted x l).
Proof.
  induction 1 as [|y l Hs IH Hy]; simpl; [repeat constructor|].
  destruct (String.leb x y) eqn:Exy.
  - constructor; [constructor; assumption|].
    constructor; [exact Exy|].
    rewrite Stdlib.Lists.List.Forall_forall in *. intros z Hz. eapply leb_trans; [exact Exy|apply Hy, Hz].
  - constructor; [exact IH|].
    rewrite Stdlib.Lists.List.Forall_forall in *. intros z Hz. apply insert_sorted_In in Hz as [->|Hz].
    + destruct (String.leb_total y x) as [H|H]; [exact H|congruence].
    + apply Hy, Hz.
Qed.

Lemma py_sorted_sorted l : StronglySorted (fun a b => String.leb a b = true) (py_sorted l).
Proof.
  induction l as [|x l IH]; simpl; [constructor|]. apply insert_sorted_sorted, IH.
Qed.

Lemma sorted_last_greatest l m :
  StronglySorted (fun a b => String.leb a b = true) l ->
  last l = Some m -> forall n, In n l -> String.leb n m = true.
Proof.
  induction 1 as [|y l Hs IH Hy]; [discriminate|].
  destruct l as [|z l].
  - intros [= <-] n [<-|[]]. apply leb_refl.
  - intros Hlast n [<-|Hn].
    + rewrite Stdlib.Lists.List.Forall_forall in Hy. apply Hy, last_In. exact Hlast.
    + apply IH; assumption.
Qed.

(** X20. The directory [load_index_from_disk] names is the one of the
    entry of the listing that is greatest in the order of texts by code
    points: it is an entry, and no entry is above it. *)
Theorem latest_persist_dir_greatest s dir :
  latest_persist_dir E s = Ok dir ->
  exists names latest,
    listdir E s = Ok names
    /\ dir = index_dir E +:+ latest
    /\ In latest names
    /\ forall n, In n names -> String.leb n latest = true.
Proof.
  unfold latest_persist_dir, list_last_item.
  destruct (listdir E s) as [names|e]; [|discriminate].
  destruct (last (py_sorted names)) as [latest|] eqn:Hlast; [|discriminate].
  intros [= <-]. exists names, latest.
  split; [reflexivity|]. split; [reflexivity|]. split.
  - apply py_sorted_In, last_In. exact Hlast.
  - intros n Hn. eapply sorted_last_greatest; [apply py_sorted_sorted|exact Hlast|].
    apply py_sorted_In. exact Hn.
Qed.

End IndexProperties.

(** ** Names and dates *)

Lemma compare_app_same_length u : forall v s t,
  String.length u = String.length v ->
  String.compare (u +:+ s) (v +:+ t)
  = match String.compare u v with Eq => String.compare s t | c => c end.
Proof.
  induction u as [|a u IH]; intros [|b v] s t; try discriminate.
  - reflexivity.
  - intros [= Hlen].
    change (String.compare (String a (u +:+ s)) (String b (v +:+ t))
            = match String.compare (String a u) (String b v) with
              | Eq => String.compare s t | c => c end).
    cbn [String.compare]. destruct (Ascii.compare a b); [apply IH; exact Hlen|reflexivity..].
Qed.

Lemma two_digits_compare a b :
  a < 100 -> b < 100 -> String.compare (two_digits a) (two_digits b) = Nat.compare a b.
Proof.
  intros Ha Hb.
  assert (H : forallb (fun a => forallb (fun b =>
                match String.compare (two_digits a) (two_digits b), Nat.compare a b with
                | Eq, Eq | Lt, Lt | Gt, Gt => true
                | _, _ => false
                end) (seq 0 100)) (seq 0 100) = true) by (vm_compute; reflexivity).
  rewrite forallb_forall in H. specialize (H a). rewrite in_seq in H.
  specialize (H ltac:(lia)). rewrite forallb_forall in H. specialize (H b).
  rewrite in_seq in H. specialize (H ltac:(lia)).
  destruct (String.compare (two_digits a) (two_digits b)), (Nat.compare a b);
    (reflexivity || discriminate).
Qed.

Lemma strftime_minutes_length t : String.length (strftime_minutes t) = 16.
Proof. reflexivity. Qed.

(** The texts of two dates compare as the dates do. *)
Lemma strftime_minutes_lt t1 t2 :
  valid_date t1 -> valid_date t2 -> date_lt t1 t2 ->
  String.compare (strftime_minutes t1) (strftime_minutes t2) = Lt.
Proof.
  intros (Hy1 & Hm1 & Hd1 & Hh1 & Hi1) (Hy2 & Hm2 & Hd2 & Hh2 & Hi2) Hlt.
  destruct t1 as [y1 m1 d1 h1 i1], t2 as [y2 m2 d2 h2 i2].
  unfold date_lt, strftime_minutes in *. cbn [year month day hour minute] in *.
  assert (E9 : 9999 = 99 * 100 + 99) by (vm_compute; reflexivity).
  rewrite E9 in Hy1, Hy2. clear E9.
  pose proof (Nat.div_mod_eq y1 100) as E1. pose proof (Nat.div_mod_eq y2 100) as E2.
  pose proof (Nat.mod_upper_bound y1 100 ltac:(lia)) as B1.
  pose proof (Nat.mod_upper_bound y2 100 ltac:(lia)) as B2.
  assert (y1 / 100 < 100) by (apply Nat.Div0.div_lt_upper_bound; lia).
  assert (y2 / 100 < 100) by (apply Nat.Div0.div_lt_upper_bound; lia).
  set (a1 := y1 / 100) in *. set (b1 := y1 mod 100) in *.
  set (a2 := y2 / 100) in *. set (b2 := y2 mod 100) in *.
  rewrite compare_app_same_length, two_digits_compare by (reflexivity || lia).
  destruct (Nat.compare_spec a1 a2) as [Ha|Ha|Ha]; [|reflexivity|exfalso; lia].
  rewrite compare_app_same_length, two_digits_compare by (reflexivity || lia).
  destruct (Nat.compare_spec b1 b2) as [Hb|Hb|Hb]; [|reflexivity|exfalso; lia].
  rewrite (compare_app_same_length "-" "-") by reflexivity. cbn [String.compare].
  replace (Ascii.compare "-" "-") with Eq by reflexivity.
  rewrite compare_app_same_length, two_digits_compare by (reflexivity || lia).
  destruct (Nat.compare_spec m1 m2) as [Hm|Hm|Hm]; [|reflexivity|exfalso; lia].
  rewrite (compare_app_same_length "-" "-") by reflexivity. cbn [String.compare].
  replace (Ascii.compare "-" "-") with Eq by reflexivity.
  rewrite compare_app_same_length, two_digits_compare by (reflexivity || lia).
  destruct (Nat.compare_spec d1 d2) as [Hd|Hd|Hd]; [|reflexivity|exfalso; lia].
  rewrite (compare_app_same_length "-" "-") by reflexivity. cbn [String.compare].
  replace (Ascii.compare "-" "-") with Eq by reflexivity.
  rewrite compare_app_same_length, two_digits_compare by (reflexivity || lia).
  destruct (Nat.compare_spec h1 h2) as [Hh|Hh|Hh]; [|reflexivity|exfalso; lia].
  rewrite (compare_app_same_length "-" "-") by reflexivity. cbn [String.compare].
  replace (Ascii.compare "-" "-") with Eq by reflexivity.
  rewrite two_digits_compare by lia.
  destruct (Nat.compare_spec i1 i2) as [Hi|Hi|Hi]; [exfalso; lia|reflexivity|exfalso; lia].
Qed.

(** X21. Of two indexes persisted at different minutes, the later one has
    the greater directory name in the order of texts, whatever the model
    names and chunk parameters: the date opens the name in a fixed width. *)
Theorem later_index_has_greater_name t1 t2 model1 size1 overlap1 model2 size2 overlap2 :
  valid_date t1 -> valid_date t2 -> date_lt t1 t2 ->
  String.ltb (persist_name t1 model1 size1 overlap1)
             (persist_name t2 model2 size2 overlap2) = true.
Proof.
  intros H1 H2 Hlt. unfold String.ltb, persist_name.
  rewrite compare_app_same_length by reflexivity.
  rewrite (strftime_minutes_lt t1 t2 H1 H2 Hlt). reflexivity.
Qed.


Section LatestIndex.

Context {S I : Type} (E : IndexEnv S I).

(** X22. When the directory holds indexes that [persist_index] named and
    one of them is of a later minute than every other, that one is the
    directory [load_index_from_disk] loads, wherever it stands in the
    listing. *)
Theorem latest_persist_dir_is_latest_minute s names t model size overlap :
  listdir E s = Ok names ->
  valid_date t ->
  In (persist_name t model size overlap) names ->
  (forall n, In n names ->
     n = persist_name t model size overlap
     \/ exists t' model' size' overlap',
          n = persist_name t' model' size' overlap' /\ valid_date t' /\ date_lt t' t) ->
  latest_persist_dir E s = Ok (index_dir E +:+ persist_name t model size overlap).
Proof.
  intros Hl Ht Hin Hothers. unfold latest_persist_dir, list_last_item. rewrite Hl.
  destruct (last (py_sorted names)) as [latest|] eqn:Hlast.
  - assert (Hlatest : In latest names) by (apply py_sorted_In, last_In; exact Hlast).
    assert (Hle : String.leb (persist_name t model size overlap) latest = true).
    { eapply sorted_last_greatest; [apply py_sorted_sorted|exact Hlast|].
      apply py_sorted_In. exact Hin. }
    destruct (Hothers latest Hlatest) as [->|(t' & model' & size' & overlap' & -> & Ht' & Hlt)];
      [reflexivity|].
    exfalso. unfold String.leb in Hle. rewrite String.compare_antisym in Hle.
    unfold persist_name in Hle.
    rewrite compare_app_same_length in Hle by reflexivity.
    rewrite (strftime_minutes_lt t' t Ht' Ht Hlt) in Hle. discriminate.
  - exfalso. apply py_sorted_In in Hin.
    destruct (py_sorted names) as [|y l]; [destruct Hin|].
    clear Hin. revert y Hlast. induction l as [|z l IH]; intros y; [discriminate|]. apply IH.
Qed.

End LatestIndex.

(** * Properties of [embed.py] *)

Section EmbedProperties.

Context {St V : Type} (E : EmbedEnv St V).

(** ** Reasoning on the outcome and the state a computation reaches *)

Lemma reaches_and_then {A B} (m : EM (St:=St) (V:=V) A) (k : A -> EM B) Q w :
  reaches m (fun o w' =>
               match o with
               | Returns a => reaches (k a) Q w'
               | Raises e => Q (Raises e) w'
               | Exits code => Q (Exits code) w'
               end) w ->
  reaches (and_then m k) Q w.
Proof.
  unfold reaches, and_then. destruct (m w) as [[a|e|code] w']; simpl; auto.
Qed.

Lemma reaches_try {A} (body : EM (St:=St) (V:=V) A) handler Q w :
  reaches body (fun o w' =>
                  match o with
                  | Returns a => Q (Returns a) w'
                  | Raises e => reaches (handler e) Q w'
                  | Exits code => Q (Exits code) w'
                  end) w ->
  reaches (try_except_exception body handler) Q w.
Proof.
  unfold reaches, try_except_exception. destruct (body w) as [[a|e|code] w']; simpl; auto.
Qed.

Lemma reaches_call {A} c (op : St -> Result A * St) Q (w : EmbedWorld St V) :
  (forall a s, op (objects w) = (Ok a, s) ->
     Q (Returns a)
       (mkEmbedWorld s (node_embedding w) (progress_value w) (calls w ++ [c]) (records w))) ->
  (forall e s, op (objects w) = (Raise e, s) ->
     Q (Raises e)
       (mkEmbedWorld s (node_embedding w) (progress_value w) (calls w ++ [c]) (records w))) ->
  reaches (call_object c op) Q w.
Proof.
  unfold reaches, call_object. intros Hok Hraise.
  destruct (op (objects w)) as [[a|e] s] eqn:Hop; simpl; auto.
Qed.

Ltac reach :=
  cbn beta iota zeta;
  lazymatch goal with
  | |- reaches (try_except_exception _ _) _ _ => apply reaches_try
  | |- reaches (and_then _ _) _ _ => apply reaches_and_then
  | |- reaches (call_object _ _) _ _ => apply reaches_call; intros ? ? ?
  | |- reaches (num_tokens_from_string _ _ _) _ _ => unfold num_tokens_from_string
  | |- reaches (generate_node_embedding _ _) _ _ => unfold generate_node_embedding
  | |- reaches (if ?b then _ else _) _ _ => destruct b eqn:?
  | |- reaches (match ?x with _ => _ end) _ _ => destruct x eqn:?
  | |- reaches _ _ _ =>
      unfold reaches at 1;
      cbv [logging set_embedding increment_progress returns raises exits];
      cbn [fst snd objects node_embedding progress_value calls records]
  end.

(** X23. [num_tokens_from_string] never raises: it returns the length of
    the encoding after the one call that computes it, or it logs the
    failure and leaves the process with code 1. It touches neither the
    node nor the progress counter. *)
Theorem num_tokens_returns_or_exits string embedding_model_name w :
  let run := num_tokens_from_string E string embedding_model_name w in
  node_embedding run.2 = node_embedding w /\ progress_value run.2 = progress_value w
  /\ match run.1 with
     | Returns num_tokens =>
         exists encoding,
           MODEL_TO_ENCODING E !! embedding_model_name = Some encoding
           /\ encode_len E encoding string (objects w) = (Ok num_tokens, objects run.2)
           /\ calls run.2 = calls w ++ [Encode encoding string]
           /\ records run.2 = records w
     | Raises e => False
     | Exits code =>
         code = 1%Z /\ exists e, records run.2 = records w ++ [TokensFailed e]
     end.
Proof.
  change (reaches (num_tokens_from_string E string embedding_model_name)
            (fun o w' =>
               node_embedding w' = node_embedding w /\ progress_value w' = progress_value w
               /\ match o with
                  | Returns num_tokens =>
                      exists encoding,
                        MODEL_TO_ENCODING E !! embedding_model_name = Some encoding
                        /\ encode_len E encoding string (objects w) = (Ok num_tokens, objects w')
                        /\ calls w' = calls w ++ [Encode encoding string]
                        /\ records w' = records w
                  | Raises e => False
                  | Exits code =>
                      code = 1%Z /\ exists e, records w' = records w ++ [TokensFailed e]
                  end) w).
  repeat reach; eauto 10.
Qed.

(** X24. [generate_node_embedding] never raises. It returns [None], or it
    leaves the process with code 1; the latter only for a model of
    [MODEL_TO_ENCODING] whose text could not be encoded, with that failure
    as the one record logged and with the node and the progress counter
    as they were. *)
Theorem generate_node_embedding_never_raises total_nodes w :
  let run := generate_node_embedding E total_nodes w in
  run.1 = Returns tt
  \/ (run.1 = Exits 1
      /\ is_Some (MODEL_TO_ENCODING E !! model_name E)
      /\ (exists e, records run.2 = records w ++ [TokensFailed e])
      /\ node_embedding run.2 = node_embedding w
      /\ progress_value run.2 = progress_value w).
Proof.
  change (reaches (generate_node_embedding E total_nodes)
            (fun o w' =>
               o = Returns tt
               \/ (o = Exits 1
                   /\ is_Some (MODEL_TO_ENCODING E !! model_name E)
                   /\ (exists e, records w' = records w ++ [TokensFailed e])
                   /\ node_embedding w' = node_embedding w
                   /\ progress_value w' = progress_value w)) w).
  repeat reach; try (left; reflexivity).
  all: match goal with H : bool_decide _ = true |- _ => apply bool_decide_eq_true_1 in H end.
  all: right; repeat split; eauto.
Qed.

(** X25. A call sets the embedding of the node exactly when it advances
    the progress counter: either both are as before the call, or the
    embedding is the one the model returned for the content of the node
    and the counter is one more, as a C [int]. *)
Theorem embedded_iff_counted total_nodes w :
  let after := (generate_node_embedding E total_nodes w).2 in
  (node_embedding after = node_embedding w /\ progress_value after = progress_value w)
  \/ (exists content s1 s2 embedding s3,
        get_content E (objects w) = (Ok content, s1)
        /\ get_text_embedding E content s2 = (Ok embedding, s3)
        /\ objects after = s3
        /\ node_embedding after = Some embedding
        /\ progress_value after = c_int (progress_value w + 1)
        /\ last (calls after) = Some (GetTextEmbedding content)).
Proof.
  change (reaches (generate_node_embedding E total_nodes)
            (fun _ after =>
               (node_embedding after = node_embedding w
                /\ progress_value after = progress_value w)
               \/ (exists content s1 s2 embedding s3,
                     get_content E (objects w) = (Ok content, s1)
                     /\ get_text_embedding E content s2 = (Ok embedding, s3)
                     /\ objects after = s3
                     /\ node_embedding after = Some embedding
                     /\ progress_value after = c_int (progress_value w + 1)
                     /\ last (calls after) = Some (GetTextEmbedding content))) w).
  repeat reach; try (left; split; reflexivity).
  all: right; eexists _, _, _, _, _; repeat split; eauto using last_snoc.
Qed.

(** X26. For a model that is not in [MODEL_TO_ENCODING], the call returns
    and makes no call to the tokenizer or to the token counter and never
    sleeps: it asks the node for its content and, if that returns, the
    model for the embedding. *)
Theorem oss_model_skips_token_counter total_nodes w :
  MODEL_TO_ENCODING E !! model_name E = None ->
  let run := generate_node_embedding E total_nodes w in
  run.1 = Returns tt
  /\ (calls run.2 = calls w ++ [GetContent]
      \/ exists content, calls run.2 = calls w ++ [GetContent; GetTextEmbedding content]).
Proof.
  intros Hoss.
  change (reaches (generate_node_embedding E total_nodes)
            (fun o w' =>
               o = Returns tt
               /\ (calls w' = calls w ++ [GetContent]
                   \/ exists content,
                        calls w' = calls w ++ [GetContent; GetTextEmbedding content])) w).
  unfold generate_node_embedding.
  rewrite bool_decide_eq_false_2 by (rewrite Hoss; apply is_Some_None).
  repeat reach; (split; [reflexivity|]); rewrite <- ?app_assoc; eauto.
Qed.

(** X27. With [total_nodes = 0] no call ends without the record of a
    failure as the last one logged: the division for the progress raises
    after the node has been embedded and counted. *)
Theorem no_nodes_always_reports_failure w :
  let after := (generate_node_embedding E 0 w).2 in
  exists e,
    last (records after) = Some (EmbeddingFailed e)
    \/ last (records after) = Some (TokensFailed e).
Proof.
  change (reaches (generate_node_embedding E 0)
            (fun _ after =>
               exists e,
                 last (records after) = Some (EmbeddingFailed e)
                 \/ last (records after) = Some (TokensFailed e)) w).
  repeat reach; try discriminate; eauto using last_snoc.
Qed.

(** X28. The progress counter stays a C [int]: from a value of 32 bits a
    call leaves a value of 32 bits, and at the greatest one the increment
    wraps around to the least. *)
Theorem progress_counter_stays_c_int total_nodes w :
  (- 2 ^ 31 <= progress_value w < 2 ^ 31)%Z ->
  let after := (generate_node_embedding E total_nodes w).2 in
  (- 2 ^ 31 <= progress_value after < 2 ^ 31)%Z
  /\ (progress_value after <> progress_value w ->
      progress_value w = (2 ^ 31 - 1)%Z -> progress_value after = (- 2 ^ 31)%Z).
Proof.
  intros Hrange.
  change (reaches (generate_node_embedding E total_nodes)
            (fun _ after =>
               (- 2 ^ 31 <= progress_value after < 2 ^ 31)%Z
               /\ (progress_value after <> progress_value w ->
                   progress_value w = (2 ^ 31 - 1)%Z ->
                   progress_value after = (- 2 ^ 31)%Z)) w).
  assert (Hc : (- 2 ^ 31 <= c_int (progress_value w + 1) < 2 ^ 31)%Z).
  { unfold c_int. pose proof (Z.mod_pos_bound (progress_value w + 1 + 2 ^ 31) (2 ^ 32)). lia. }
  assert (Hw : progress_value w = (2 ^ 31 - 1)%Z ->
               c_int (progress_value w + 1) = (- 2 ^ 31)%Z).
  { intros ->. reflexivity. }
  repeat reach; (split; [assumption|]); intros; auto; congruence.
Qed.

End EmbedProperties.

(** * The sample agent at work *)

Import Sample.

(** C1, the claim as stated fails: the only completion names [web_search],
    which is not registered; [chat] raises [KeyError] instead of returning,
    the trace is lost with no observation in it, and the second completion
    of the script is never asked for. *)
Lemma unknown_tool_counterexample :
  let run := chat globals (agent 10) "What is the capital of France?" None
               (world [to_unknown_tool; final_answer]) in
  run.1 = Raise (KeyError "web_search")
  /\ env run.2 = [final_answer]
  /\ llm_calls (effects run.2) = 1
  /\ puts (effects run.2) = [user_message globals "What is the capital of France?"].
Proof. vm_compute. repeat split; reflexivity. Qed.

Lemma unknown_tool_raises_key_error_witness :
  (chat globals (agent 10) "What is the capital of France?" None
     (world [to_unknown_tool; final_answer])).1 = Raise (KeyError "web_search").
Proof.
  edestruct (unknown_tool_raises_key_error globals (agent 10)
               "What is the capital of France?" None
               (world [to_unknown_tool; final_answer])) as [_ E].
  - apply reaches_here.
  - vm_compute. reflexivity.
  - vm_compute. reflexivity.
  - vm_compute. reflexivity.
  - vm_compute. reflexivity.
  - vm_compute. reflexivity.
  - rewrite E. reflexivity.
Defined.

(** C2, the claim as stated fails: the completion calls [broken_tool],
    whose call raises; [chat] raises that exception instead of turning it
    into an observation, and the turn stops there. *)
Lemma tool_exception_counterexample :
  let run := chat globals (agent 10) "What is the capital of France?" None
               (world [to_broken_tool; final_answer]) in
  run.1 = Raise (OtherException "index not loaded")
  /\ env run.2 = [final_answer]
  /\ llm_calls (effects run.2) = 1.
Proof. vm_compute. repeat split; reflexivity. Qed.

Lemma tool_exception_escapes_chat_witness :
  (chat globals (agent 10) "What is the capital of France?" None
     (world [to_broken_tool; final_answer])).1 = Raise (OtherException "index not loaded").
Proof.
  edestruct (tool_exception_escapes_chat globals (agent 10)
               "What is the capital of France?" None
               (world [to_broken_tool; final_answer])) as [_ E].
  - apply reaches_here.
  - vm_compute. reflexivity.
  - vm_compute. reflexivity.
  - vm_compute. reflexivity.
  - vm_compute. reflexivity.
  - vm_compute. reflexivity.
  - vm_compute. reflexivity.
  - rewrite E. reflexivity.
Defined.

(** C6, the claim as stated fails: in the turn whose tool raises, [chat]
    puts one message into memory, not two. *)
Lemma one_put_counterexample :
  puts (effects (chat globals (agent 10) "What is the capital of France?" None
                   (world [to_broken_tool; final_answer])).2)
  = [user_message globals "What is the capital of France?"].
Proof. vm_compute. reflexivity. Qed.

(** The sample parser keeps the contract of section 4.3. *)
Lemma sample_parser_contract n : parser_contract (agent n).
Proof.
  intros output text steps is_done. cbn [_extract_reasoning_step agent].
  unfold extract_reasoning_step.
  destruct (content (message output)) as [t|]; [|discriminate].
  destruct (str_contains "Answer:" t).
  - intros [= <- <- <-]. eexists. split; [reflexivity|]. reflexivity.
  - destruct (str_contains "Action:" t && str_contains "Action Input:" t); [|discriminate].
    destruct (loads (text_after "Action Input:" t)) as [[| | | | | |d]|e]; try discriminate.
    intros [= <- <- <-]. eexists. split; [reflexivity|]. discriminate.
Qed.

Lemma trace_alternates_witness :
  exists trace w',
    chat_loop globals (agent 10) "What is the capital of France?" 10 []
      (world [to_query_tool; final_answer]) = (Ok trace, w')
    /\ List.length trace = 3
    /\ exists init thought r,
         trace = init ++ [FinalAnswerStep thought r] /\ existsb is_final init = false.
Proof.
  eexists _, _. split; [vm_compute; reflexivity|]. split; [reflexivity|].
  edestruct (trace_alternates globals (agent 10) "What is the capital of France?"
               (world [to_query_tool; final_answer])) as [_ [H|[H _]]].
  - apply sample_parser_contract.
  - vm_compute. reflexivity.
  - exact H.
  - vm_compute in H. discriminate.
Defined.

Lemma malformed_action_input_falls_back_witness :
  exists e,
    copy_and_enforce globals "What is the capital of France?" 2 (world_with malformed_input)
    = (Ok 5, mkWorld [] (copy_cells (response_of_text malformed_input)
                           (copy_cells (response_of_text malformed_input) []))
               [] [LoggingError e]).
Proof.
  destruct (malformed_action_input_falls_back globals "What is the capital of France?"
              (world_with malformed_input) 2 (response_of_text malformed_input)
              malformed_input) as (e & H & _).
  - vm_compute. reflexivity.
  - vm_compute. reflexivity.
  - vm_compute. reflexivity.
  - vm_compute. reflexivity.
  - exists e. exact H.
Defined.

Lemma missing_input_key_is_added_witness :
  exists h' r',
    copy_and_enforce globals "What is the capital of France?" 2 (world_with input_without_key)
    = (Ok 5, mkWorld [] h' [] [])
    /\ deref h' 5
       = Some (mkChatResponse
                 (mkChatMessage ASSISTANT
                    (Some (dq "Thought: I need the tool. Action: query_tool Action Input: {'query': 'capital of France', 'input': 'Answer in detail: What is the capital of France?'}")))
                 r').
Proof.
  destruct (missing_input_key_is_added globals "What is the capital of France?"
              (world_with input_without_key) 2 (response_of_text input_without_key)
              input_without_key (dq "{'query': 'capital of France'}")
              [("query", PyStr "capital of France")])
    as (h' & r' & H & Hd & _).
  - vm_compute. reflexivity.
  - vm_compute. reflexivity.
  - vm_compute. reflexivity.
  - vm_compute. reflexivity.
  - vm_compute. reflexivity.
  - vm_compute. reflexivity.
  - exists h', r'. split; [exact H|]. exact Hd.
Defined.

(** C4, at a failing input. The thought of the completion quotes the
    record that follows the marker. The rewrite puts the new record in
    place of every occurrence of the part, so the text of the thought,
    which is outside the span of the action input, is rewritten as well. *)
Example rewrite_replaces_every_occurrence :
  let run := copy_and_enforce globals "Q" 2 (world_with quoted_input) in
  run.1 = Ok 5
  /\ option_map (fun v => content (message v)) (deref (heap run.2) 5)
     = Some (Some (dq "Thought: I send {'input': 'Answer in detail: Q'} to the tool. Action: query_tool Action Input: {'input': 'Answer in detail: Q'}"))
  /\ action_input_part quoted_input = Ok (dq "{'input': 'X'}").
Proof. vm_compute. repeat split; reflexivity. Qed.


Lemma no_marker_no_rewrite_witness :
  copy_and_enforce globals "What is the capital of France?" 2 (world_with final_answer)
  = (Ok 5, mkWorld [] (copy_cells (response_of_text final_answer)
                         (copy_cells (response_of_text final_answer) [])) [] []).
Proof.
  destruct (no_marker_no_rewrite globals "What is the capital of France?"
              (world_with final_answer) 2 (response_of_text final_answer) final_answer)
    as [H _].
  - vm_compute. reflexivity.
  - vm_compute. reflexivity.
  - vm_compute. reflexivity.
  - exact H.
Defined.

(** With one round allowed and a completion that calls the tool, the loop
    ends with an action and its observation; the sample [get_response]
    raises on that trace, and so does [chat]. *)
Lemma chat_exhausted_delegates_witness :
  (chat globals (agent 1) "What is the capital of France?" None (world [to_query_tool])).1
  = Raise AttributeError.
Proof.
  erewrite (chat_exhausted_delegates globals (agent 1)).
  2: { eapply reaches_round; [vm_compute; reflexivity|apply reaches_here]. }
  vm_compute. reflexivity.
Defined.

Lemma rewrite_at_single_occurrence_witness :
  exists h' r',
    copy_and_enforce globals "What is the capital of France?" 2 (world_with to_query_tool)
    = (Ok 5, mkWorld [] h' [] [])
    /\ deref h' 5
       = Some (mkChatResponse
                 (mkChatMessage ASSISTANT
                    (Some (dq "Thought: I need the tool. Action: query_tool Action Input: {'input': 'Answer in detail: What is the capital of France?'}")))
                 r').
Proof.
  destruct (rewrite_at_single_occurrence globals "What is the capital of France?"
              (world_with to_query_tool) 2 (response_of_text to_query_tool)
              "Thought: I need the tool. Action: query_tool Action Input: "
              (dq "{'input': 'capital of France'}") EmptyString
              [("input", PyStr "capital of France")])
    as (h' & r' & H & Hd & _).
  - vm_compute. reflexivity.
  - vm_compute. reflexivity.
  - vm_compute. reflexivity.
  - vm_compute. reflexivity.
  - vm_compute. reflexivity.
  - discriminate.
  - intros i Hi.
    assert (Hall : forallb (fun i => negb (String.prefix (dq "{'input': 'capital of France'}")
                     (str_drop i to_query_tool)))
                     (seq 0 (String.length
                        "Thought: I need the tool. Action: query_tool Action Input: ")) = true)
      by (vm_compute; reflexivity).
    rewrite forallb_forall in Hall.
    specialize (Hall i). rewrite in_seq in Hall.
    apply negb_true_iff, Hall. lia.
  - vm_compute. reflexivity.
  - exists h', r'. split; [exact H|]. exact Hd.
Defined.

(** ** The further properties at work *)

Lemma no_match_before_check sep text n :
  forallb (fun i => negb (String.prefix sep (str_drop i text))) (seq 0 n) = true ->
  no_match_before sep text n.
Proof.
  intros H i Hi. rewrite forallb_forall in H.
  apply negb_true_iff, H, in_seq. lia.
Qed.


Lemma backend_failure_escapes_chat_witness :
  (chat globals (agent 10) "Q" None (world [])).1
  = Raise (OtherException "backend unavailable").
Proof.
  erewrite (backend_failure_escapes_chat globals (agent 10) "Q" None (world [])).
  - reflexivity.
  - apply reaches_here.
  - vm_compute. reflexivity.
Defined.

Lemma unreadable_content_escapes_chat_witness :
  (chat globals (bare_agent 10) "Q" None (world [final_answer])).1 = Raise TypeError.
Proof.
  erewrite (unreadable_content_escapes_chat globals (bare_agent 10) "Q" None
              (world [final_answer])).
  - reflexivity.
  - apply reaches_here.
  - vm_compute. reflexivity.
  - vm_compute. reflexivity.
Defined.

Lemma parse_failure_escapes_chat_witness :
  (chat globals (agent 10) "Q" None (world [shapeless])).1
  = Raise (ValueError "Could not parse output").
Proof.
  erewrite (parse_failure_escapes_chat globals (agent 10) "Q" None (world [shapeless])).
  - reflexivity.
  - apply reaches_here.
  - vm_compute. reflexivity.
  - vm_compute. reflexivity.
  - vm_compute. reflexivity.
Defined.

Lemma final_answer_ends_turn_witness :
  (chat globals (agent 10) "Q" None (world [final_answer; to_query_tool])).1
  = Ok (mkAgentChatResponse "Paris").
Proof.
  erewrite (final_answer_ends_turn globals (agent 10) "Q" None
              (world [final_answer; to_query_tool])).
  2: apply reaches_here.
  2: vm_compute; reflexivity.
  2: vm_compute; reflexivity.
  2: vm_compute; reflexivity.
  vm_compute. reflexivity.
Defined.

Lemma dispatch_appends_tool_output_witness :
  (chat_round globals (agent 10) "Q" [] (world [to_query_tool])).1
  = Ok ([ActionReasoningStep "Thought: I need the tool." "query_tool"
           [("input", PyStr "Answer in detail: Q")];
         ObservationReasoningStep "Paris is the capital of France."], false).
Proof.
  erewrite (dispatch_appends_tool_output globals (agent 10) "Q" [] (world [to_query_tool])).
  2-7: vm_compute; reflexivity.
  reflexivity.
Defined.

Lemma observations_are_tool_outputs_witness :
  exists trace w',
    chat_loop globals (agent 10) "Q" 10 [] (world [to_query_tool; to_query_tool; final_answer])
    = (Ok trace, w')
    /\ observations trace = ["Paris is the capital of France."; "Paris is the capital of France."]
    /\ observations trace = event_outputs (effects w').
Proof.
  eexists _, _. split; [vm_compute; reflexivity|]. split; [reflexivity|].
  edestruct (observations_are_tool_outputs globals (agent 10) "Q"
               (world [to_query_tool; to_query_tool; final_answer])) as (d & E & O).
  - apply sample_parser_contract.
  - vm_compute. reflexivity.
  - cbn [snd]. rewrite E. exact O.
Defined.

Lemma one_backend_call_per_parsed_step_witness :
  exists trace w',
    chat_loop globals (agent 10) "Q" 10 [] (world [to_query_tool; to_query_tool; final_answer])
    = (Ok trace, w')
    /\ parsed_steps trace = 3
    /\ llm_calls (effects w') = parsed_steps trace.
Proof.
  eexists _, _. split; [vm_compute; reflexivity|]. split; [reflexivity|].
  edestruct (one_backend_call_per_parsed_step globals (agent 10) "Q"
               (world [to_query_tool; to_query_tool; final_answer])) as (d & E & C).
  - apply sample_parser_contract.
  - vm_compute. reflexivity.
  - cbn [snd]. rewrite E. exact C.
Defined.

Lemma action_input_part_to_end_witness :
  action_input_part to_query_tool = Ok (dq "{'input': 'capital of France'}").
Proof.
  pose proof (action_input_part_to_end "Thought: I need the tool. Action: query_tool "
                (dq " {'input': 'capital of France'}")) as H.
  apply H.
  - apply no_match_before_check. vm_compute. reflexivity.
  - vm_compute. reflexivity.
Defined.

Lemma action_input_part_to_next_marker_witness :
  action_input_part marker_twice = Ok "{}".
Proof.
  pose proof (action_input_part_to_next_marker "Thought: go. Action: query_tool "
                " {} " " ignored") as H.
  apply H.
  - apply no_match_before_check. vm_compute. reflexivity.
  - apply no_match_before_check. vm_compute. reflexivity.
Defined.

(** * The index functions at work *)

Lemma load_index_empty_directory_witness :
  load_index_from_disk (index_env [] "no index") [] = (Raises IndexError, [], []).
Proof.
  apply (load_index_empty_directory (index_env [] "no index") []). reflexivity.
Defined.

Lemma load_index_raises_only_witness :
  load_index_from_disk (index_env [] "no index") [] = (Raises IndexError, [], [])
  /\ (listdir (index_env [] "no index") [] = Raise IndexError
      \/ (listdir (index_env [] "no index") [] = Ok [] /\ IndexError = IndexError)
      \/ (exists persist_dir e1 s1,
            latest_persist_dir (index_env [] "no index") [] = Ok persist_dir
            /\ load_from_vector_store (index_env [] "no index") [] = (Raise e1, s1)
            /\ str_contains "No existing llama_index.vector_stores.simple"
                 (exc_str (index_env [] "no index") e1) = true
            /\ (write_stub (index_env [] "no index") (persist_dir +:+ "/vector_store.json") s1).1
               = Raise IndexError)).
Proof.
  split; [reflexivity|].
  apply (load_index_raises_only (index_env [] "no index") [] IndexError [] []). reflexivity.
Defined.

Lemma load_index_returns_none_witness :
  load_index_from_disk (index_env [second_index; first_index] "connection refused") []
  = (Returns None, [],
     [LogInfo ("LOADING INDEX " +:+ ("index/" +:+ second_index) +:+ " FROM DISK");
      LogError (ValueError "connection refused")]).
Proof.
  apply (load_index_returns_none (index_env [second_index; first_index] "connection refused")
           [] ("index/" +:+ second_index) (ValueError "connection refused") []);
    vm_compute; reflexivity.
Defined.

Lemma latest_persist_dir_greatest_witness :
  exists names latest,
    listdir (index_env [second_index; first_index] "") [] = Ok names
    /\ "index/" +:+ second_index = "index/" +:+ latest
    /\ In latest names
    /\ forall n, In n names -> String.leb n latest = true.
Proof.
  apply (latest_persist_dir_greatest (index_env [second_index; first_index] "") []).
  vm_compute. reflexivity.
Defined.

Lemma later_index_has_greater_name_witness :
  String.ltb (persist_name (mkDateTime 2023 9 30 23 59) "text-embedding-ada-002" "700" "10")
             (persist_name (mkDateTime 2023 10 1 0 0) "bge-small-en" "700" "10") = true.
Proof.
  apply later_index_has_greater_name.
  - unfold valid_date. cbn [year month day hour minute].
    repeat split; try lia; apply Nat.leb_le; vm_compute; reflexivity.
  - unfold valid_date. cbn [year month day hour minute].
    repeat split; try lia; apply Nat.leb_le; vm_compute; reflexivity.
  - unfold date_lt. cbn [year month day hour minute]. lia.
Defined.

Lemma latest_persist_dir_is_latest_minute_witness :
  latest_persist_dir (index_env [second_index; first_index] "") []
  = Ok ("index/" +:+ second_index).
Proof.
  apply (latest_persist_dir_is_latest_minute (index_env [second_index; first_index] "") []
           [second_index; first_index] (mkDateTime 2023 10 1 0 0) "bge-small-en" "700" "10").
  - reflexivity.
  - unfold valid_date. cbn [year month day hour minute].
    repeat split; try lia; apply Nat.leb_le; vm_compute; reflexivity.
  - left. reflexivity.
  - intros n [<-|[<-|[]]]; [left; reflexivity|].
    right. exists (mkDateTime 2023 9 30 23 59), "text-embedding-ada-002", "700", "10".
    split; [reflexivity|]. split.
    + unfold valid_date. cbn [year month day hour minute].
      repeat split; try lia; apply Nat.leb_le; vm_compute; reflexivity.
    + unfold date_lt. cbn [year month day hour minute]. lia.
Defined.

(** * The embedding of a node at work *)

Lemma oss_model_skips_token_counter_witness :
  (generate_node_embedding (embed_env "BAAI/bge-small-en") 40 (embed_world 0)).1 = Returns tt
  /\ (calls (generate_node_embedding (embed_env "BAAI/bge-small-en") 40 (embed_world 0)).2
      = [] ++ [GetContent]
      \/ exists content,
           calls (generate_node_embedding (embed_env "BAAI/bge-small-en") 40 (embed_world 0)).2
           = [] ++ [GetContent; GetTextEmbedding content]).
Proof.
  apply (oss_model_skips_token_counter (embed_env "BAAI/bge-small-en") 40 (embed_world 0)).
  vm_compute. reflexivity.
Defined.

Lemma progress_counter_stays_c_int_witness :
  (- 2 ^ 31
   <= progress_value
        (generate_node_embedding (embed_env "text-embedding-ada-002") 40
           (embed_world (2 ^ 31 - 1))).2
   < 2 ^ 31)%Z
  /\ (progress_value
        (generate_node_embedding (embed_env "text-embedding-ada-002") 40
           (embed_world (2 ^ 31 - 1))).2
      <> progress_value (embed_world (2 ^ 31 - 1)) ->
      progress_value (embed_world (2 ^ 31 - 1)) = (2 ^ 31 - 1)%Z ->
      progress_value
        (generate_node_embedding (embed_env "text-embedding-ada-002") 40
           (embed_world (2 ^ 31 - 1))).2
      = (- 2 ^ 31)%Z).
Proof.
  apply (progress_counter_stays_c_int (embed_env "text-embedding-ada-002") 40
           (embed_world (2 ^ 31 - 1))).
  cbn [progress_value embed_world]. lia.
Defined.
